(** * A shallow embedding of the Poe relay bot (main.py)

    The development follows the two parts of main.py that carry state or
    an algorithm:

    - the guild configuration store: the module-level dictionary
      [llm_choices], its loading from [llm_choices.json], the migration of
      legacy entries, and the places where the command handlers read and
      write it;
    - the splitting of a long reply into messages of at most 2000
      characters at the end of [askpoe].

    Python values are modelled by the inductive type [pyval]; a dictionary
    is a [gmap] from strings; a missing key or an operation that is
    ill-typed raises the exception Python raises.  The handlers run in a
    small state-and-exception monad over the record [world].

    The log keeps the lines whose text the model determines: the ERROR
    lines (without the text of the exception) and the INFO lines on
    migration and on the list of models.  The lines that print Discord
    objects are left out. *)

From Stdlib Require Import ZArith String Ascii List Lia.
From stdpp Require Import gmap strings list fin_maps pretty.

Set Warnings "-register-all".

(* ===================================================================== *)
(** * Part I: the model                                                   *)
(* ===================================================================== *)

(** ** Python strings

    A Python [str] is a sequence of characters; [len], slicing and
    concatenation never look inside a character, so one element of a Rocq
    [string] stands for one Python character. *)

Definition len (s : string) : nat := String.length s.

(** [py_slice s i j] is [s[i:j]] for indices [0 <= i] and [0 <= j]: the
    characters at positions [i], ..., [j-1] that exist; empty when
    [j <= i] or [len s <= i]. *)
Definition py_slice (s : string) (i j : nat) : string := substring i (j - i) s.

(** [startswith s p] is [s.startswith(p)]. *)
Definition startswith (s p : string) : bool := String.prefix p s.

(** [py_range start stop step] lists [range(start, stop, step)] for a
    positive [step] and non-negative bounds, the way CPython computes it:
    the number of elements first, then [start + k * step]. *)
Definition py_range (start stop step : nat) : list nat :=
  let n := if start <? stop then (stop - start - 1) / step + 1 else 0 in
  map (fun k => start + k * step) (seq 0 n).

(** Proof-side views of a string: its first [n] characters and the rest. *)
Fixpoint take (n : nat) (s : string) : string :=
  match n, s with
  | S n', String c s' => String c (take n' s')
  | _, _ => EmptyString
  end.

Fixpoint drop (n : nat) (s : string) : string :=
  match n, s with
  | S n', String _ s' => drop n' s'
  | _, _ => s
  end.

Definition concat_str (l : list string) : string :=
  fold_right String.append EmptyString l.

(** ** The reply chunker (askpoe, lines 185-203)

    The source writes the limit as the literal 2000 in four places (the
    test of line 185, the subtraction of line 190, the step of the range
    and the width of the slice in lines 201-202).  [chunk] takes it as the
    argument [limit]; [askpoe] calls it at [MESSAGE_LIMIT].

    The result lists the texts passed to [interaction.followup.send], in
    order, or tells that the handler sent the too-long notice instead. *)

Definition MESSAGE_LIMIT : nat := 2000.

Inductive chunked :=
  | Segments (messages : list string)
  | PrefixTooLong.

Definition chunk (limit : nat) (prefix response : string) : chunked :=
  let formatted_message := prefix +:+ response in
  if len formatted_message <=? limit then
    Segments [formatted_message]
  else
    let max_chunk_size := (Z.of_nat limit - Z.of_nat (len prefix))%Z in
    if (max_chunk_size <=? 0)%Z then
      PrefixTooLong
    else
      let first_chunk := py_slice response 0 (Z.to_nat max_chunk_size) in
      Segments
        ((prefix +:+ first_chunk)
           :: map (fun i => py_slice response i (i + limit))
                  (py_range (Z.to_nat max_chunk_size) (len response) limit)).

(** The body portions of a chunking with prefix [p]: the first message
    without its first [len p] characters, the other messages whole. *)
Definition body_portions (p : string) (messages : list string) : list string :=
  match messages with
  | [] => []
  | first :: others => drop (len p) first :: others
  end.

(** ** Python values

    What [json.load] can return and what the handlers store: [None],
    booleans, integers, strings, lists and dictionaries with string keys.
    (JSON numbers with a fraction do not occur in the file the bot writes
    and are left out.) *)

Inductive pyval :=
  | PNone
  | PBool (b : bool)
  | PInt (n : Z)
  | PStr (s : string)
  | PList (l : list pyval)
  | PDict (d : gmap string pyval).

(** Truth value of a Python object, as tested by [if x:]. *)
Definition truthy (v : pyval) : bool :=
  match v with
  | PNone => false
  | PBool b => b
  | PInt n => negb (n =? 0)%Z
  | PStr s => negb (len s =? 0)
  | PList l => negb (length l =? 0)
  | PDict d => negb (size d =? 0)
  end.

(** [isinstance(v, str)] and [isinstance(v, dict)]. *)
Definition isinstance_str (v : pyval) : bool :=
  match v with PStr _ => true | _ => false end.

Definition isinstance_dict (v : pyval) : bool :=
  match v with PDict _ => true | _ => false end.

(** The dictionary literal [{'model': model, 'chatId': chat}] that the
    source writes at every place where it builds an entry. *)
Definition record (model chat : pyval) : pyval :=
  PDict (<["chatId" := chat]> (<["model" := model]> ∅)).

(** The fallback of [llm_choices.get(guild_id, ...)] and of the start-up
    default: [{'model': 'gpt3_5', 'chatId': None}]. *)
Definition default_record : pyval := record (PStr "gpt3_5") PNone.

(** ** Exceptions and results *)

Inductive exn :=
  | KeyError (key : string)
  | TypeError
  | AttributeError
  | JSONDecodeError
  | UnicodeDecodeError
  | ValueError
  | RecursionError
  | ProviderError.

Inductive result (A : Type) :=
  | Ok (a : A)
  | Raise (e : exn).

Arguments Ok {A} a.
Arguments Raise {A} e.

(** ** The durable file

    The content of [llm_choices.json] is identified with what [json.load]
    makes of it: the document it denotes; a text that is not JSON, on
    which it raises [JSONDecodeError]; or a content on which it raises
    something else: [UnicodeDecodeError] when the bytes are not text in
    the encoding of [open], [ValueError] for an integer literal beyond the
    digit limit, [RecursionError] for a nesting too deep.  [json.dump] of
    the store writes the document of the store. *)

Inductive file :=
  | Unparsable (text : string)
  | Refused (e : exn)
  | Document (v : pyval).

Definition json_load (f : file) : result pyval :=
  match f with
  | Document v => Ok v
  | Unparsable _ => Raise JSONDecodeError
  | Refused e => Raise e
  end.

(** ** The process state *)

Inductive level := INFO | WARNING | ERROR.

(** What a handler hands to Discord: a fixed notice of the source (its
    literal texts are not needed here) or a composed text. *)
Inductive outgoing :=
  | Ack                           (* the ephemeral first answer *)
  | Content (text : string)       (* followup.send of a computed text *)
  | TooLongNotice                 (* line 194 *)
  | NoResponseNotice              (* line 207 *)
  | TypeErrorNotice               (* line 211 *)
  | ProcessingErrorNotice         (* line 214 *)
  | InvalidModelNotice (model : string)   (* line 272 *)
  | ModelSetNotice (model : string)       (* line 292 *)
  | SetErrorNotice                (* line 296 *)
  | ResetDoneNotice               (* line 320 *)
  | GuildNotFoundNotice           (* line 323 *)
  | ResetErrorNotice              (* line 327 *)
  | NoContextNotice               (* line 403 *)
  | NoThreadNotice                (* line 411 *)
  | ClearedNotice                 (* line 422 *)
  | ClearErrorNotice.             (* line 426 *)

Record world := World {
  llm_choices : gmap string pyval;   (* the module-level dictionary *)
  disk : option file;                (* llm_choices.json, if it exists *)
  log : list (level * string);       (* lines written by logging, oldest first *)
  outbox : list outgoing             (* messages sent to Discord, oldest first *)
}.

Definition set_llm_choices (m : gmap string pyval) (w : world) : world :=
  World m (disk w) (log w) (outbox w).

Definition set_disk (d : option file) (w : world) : world :=
  World (llm_choices w) d (log w) (outbox w).

Definition logging (l : level) (msg : string) (w : world) : world :=
  World (llm_choices w) (disk w) (log w ++ [(l, msg)]) (outbox w).

Definition send (o : outgoing) (w : world) : world :=
  World (llm_choices w) (disk w) (log w) (outbox w ++ [o]).

(** The durable copy agrees with the store in memory. *)
Definition persisted (w : world) : Prop :=
  disk w = Some (Document (PDict (llm_choices w))).

(** ** State and exceptions

    A computation takes the world and returns a value or a raised
    exception together with the world as it is at that moment: what was
    written before an exception stays written. *)

Definition M (A : Type) : Type := world -> result A * world.

Definition ret {A} (a : A) : M A := fun w => (Ok a, w).

Definition raise {A} (e : exn) : M A := fun w => (Raise e, w).

Definition bind {A B} (c : M A) (k : A -> M B) : M B :=
  fun w =>
    match c w with
    | (Ok a, w') => k a w'
    | (Raise e, w') => (Raise e, w')
    end.

Definition modify (f : world -> world) : M unit := fun w => (Ok tt, f w).

Definition gets {A} (f : world -> A) : M A := fun w => (Ok (f w), w).

(** [try: c  except ...: h e] *)
Definition try_except {A} (c : M A) (h : exn -> M A) : M A :=
  fun w =>
    match c w with
    | (Ok a, w') => (Ok a, w')
    | (Raise e, w') => h e w'
    end.

Declare Scope py_scope.
Delimit Scope py_scope with py.
Notation "x <- c ;; k" := (bind c (fun x => k))
  (at level 100, c at level 99, k at level 200, right associativity) : py_scope.
Notation "c ;; k" := (bind c (fun _ => k))
  (at level 100, k at level 200, right associativity) : py_scope.
Open Scope py_scope.

(** ** Primitive operations on Python objects and on the store *)

(** [v[key]] for a string [key]: only a dictionary can be subscripted by
    a string; a missing key raises [KeyError]. *)
Definition getitem (v : pyval) (key : string) : M pyval :=
  match v with
  | PDict d =>
      match d !! key with
      | Some x => ret x
      | None => raise (KeyError key)
      end
  | _ => raise TypeError
  end.

(** [v.get(key)]: only a dictionary has the method. *)
Definition dict_get (v : pyval) (key : string) : M pyval :=
  match v with
  | PDict d => ret (default PNone (d !! key))
  | _ => raise AttributeError
  end.

(** [save_llm_choices()] (lines 50-52): the whole file is rewritten with
    the store as it is now.  Failures of the file system are not
    modelled. *)
Definition save_llm_choices : M unit :=
  modify (fun w => set_disk (Some (Document (PDict (llm_choices w)))) w).

(** [llm_choices[guild_id] = v] *)
Definition store_entry (guild_id : string) (v : pyval) : M unit :=
  modify (fun w => set_llm_choices (<[guild_id := v]> (llm_choices w)) w).

(** [llm_choices[guild_id][field] = v]: the subscript [llm_choices[guild_id]]
    is evaluated first and raises [KeyError] when the key is missing; the
    item assignment then needs a dictionary.  The dictionary is mutated in
    place, so its other fields stay. *)
Definition store_field (guild_id field : string) (v : pyval) : M unit :=
  fun w =>
    match llm_choices w !! guild_id with
    | None => (Raise (KeyError guild_id), w)
    | Some (PDict d) =>
        (Ok tt,
         set_llm_choices
           (<[guild_id := PDict (<[field := v]> d)]> (llm_choices w)) w)
    | Some _ => (Raise TypeError, w)
    end.

(** ** Loading and migration at import time (lines 38-76) *)

(** The line logged at line 44. *)
Definition decode_failure : level * string :=
  (ERROR, "Failed to decode llm_choices.json. Resetting to default.").

(** Lines 39-47: the value bound to [llm_choices]. *)
Definition load : M pyval :=
  fun w =>
    match disk w with
    | Some f =>
        match json_load f with
        | Ok v => (Ok v, w)
        | Raise JSONDecodeError =>
            (Ok (PDict ∅), logging (fst decode_failure) (snd decode_failure) w)
        | Raise e => (Raise e, w)
        end
    | None => (Ok (PDict ∅), w)
    end.

(** One iteration of the loop of [migrate_llm_choices] (lines 57-64). *)
Definition migrate_item (acc : bool * world) (item : string * pyval)
  : bool * world :=
  let '(migrated, w) := acc in
  let '(guild_id, data) := item in
  if isinstance_str data then
    (true,
     logging INFO ("Migrated guild_id " +:+ guild_id +:+ " to new format.")
       (set_llm_choices (<[guild_id := record data PNone]> (llm_choices w)) w))
  else (migrated, w).

(** [migrate_llm_choices()] (lines 55-65).  The loop runs over the snapshot
    [list(llm_choices.items())] and assigns into the dictionary itself.
    ([map_to_list] enumerates the snapshot in an order of its own; only the
    order of the log lines depends on it.) *)
Definition migrate_llm_choices : M bool :=
  fun w =>
    let '(migrated, w') :=
      foldl migrate_item (false, w) (map_to_list (llm_choices w)) in
    (Ok migrated, w').

(** The state in which main.py is imported: nothing bound yet, the file as
    found. *)
Definition boot (d : option file) : world := World ∅ d [] [].

(** Lines 38-76.  A document that is not a JSON object makes
    [llm_choices.items()] of line 57 raise. *)
Definition module_init (GUILD_ID : Z) : M unit :=
  v <- load ;;
  match v with
  | PDict m =>
      modify (set_llm_choices m) ;;
      migrated <- migrate_llm_choices ;;
      (if migrated : bool then save_llm_choices else ret tt) ;;
      present <- gets (fun w => llm_choices w !! pretty GUILD_ID) ;;
      match present with
      | Some _ => ret tt
      | None => store_entry (pretty GUILD_ID) default_record
      end
  | _ => raise AttributeError
  end.

(** ** The command handlers *)

(** The INFO line of a migration inside the command [command]. *)
Definition migrated_within (guild_id command : string) : string :=
  "Migrated guild_id " +:+ guild_id +:+ " within /" +:+ command +:+ " command.".

(** Lines 145-156 of [askpoe], repeated as lines 348-357 of [info] (there
    with [command = "info"]): the entry of the guild or a transient
    default, a legacy entry being rewritten and saved first. *)
Definition get_model_info (command guild_id : string) : M pyval :=
  stored <- gets (fun w => llm_choices w !! guild_id) ;;
  let model_info := default default_record stored in
  if isinstance_str model_info then
    let model_info := record model_info PNone in
    store_entry guild_id model_info ;;
    save_llm_choices ;;
    modify (logging INFO (migrated_within guild_id command)) ;;
    ret model_info
  else ret model_info.

(** The body of the loop of lines 164-175 for one item yielded by
    [poe_client.send_message]; [response] is the text gathered so far. *)
Definition askpoe_item (guild_id : string) (response : string) (chunk : pyval)
  : M string :=
  match chunk with
  | PDict c =>
      let partial_response := default (PStr "") (c !! "response") in
      response <-
        (if truthy partial_response then
           match partial_response with
           | PStr s => ret (response +:+ s)
           | _ => raise TypeError
           end
         else ret response) ;;
      let new_chat_id := default PNone (c !! "chatId") in
      (if truthy new_chat_id then
         store_field guild_id "chatId" new_chat_id ;;
         save_llm_choices
       else ret tt) ;;
      ret response
  | _ => ret response
  end.

(** Lines 162-175: the generator is given by the items it yields. *)
Fixpoint askpoe_stream (guild_id : string) (response : string)
    (items : list pyval) : M string :=
  match items with
  | [] => ret response
  | chunk :: rest =>
      response' <- askpoe_item guild_id response chunk ;;
      askpoe_stream guild_id response' rest
  end.

Fixpoint send_all (messages : list string) : M unit :=
  match messages with
  | [] => ret tt
  | m :: rest => modify (send (Content m)) ;; send_all rest
  end.

(** Lines 177-208, given the label of line 189. *)
Definition askpoe_reply (prefix response : string) : M unit :=
  if truthy (PStr response) then
    match chunk MESSAGE_LIMIT prefix response with
    | Segments messages => send_all messages
    | PrefixTooLong => modify (send TooLongNotice)
    end
  else modify (send NoResponseNotice).

Definition newline : string := String (ascii_of_nat 10) EmptyString.

Section Handlers.

(** [str(v)] for a value that is not a string, as an f-string prints
    it; Python's, not the bot's. *)
Variable py_str : pyval -> string.

Definition format_value (v : pyval) : string :=
  match v with
  | PStr s => s
  | _ => py_str v
  end.

(** Line 189. *)
Definition askpoe_prefix (display_name prompt : string) (model : pyval)
  : string :=
  "**" +:+ display_name +:+ ":** " +:+ prompt +:+ newline
    +:+ "**" +:+ format_value model +:+ ":** ".

(** [askpoe] (lines 138-214).  When the entry is a dictionary,
    [model_info] is that very object; the loop writes its field [chatId]
    only, so the model read again at lines 183 and 189 is [bot_handle]. *)
Definition askpoe (guild_id display_name prompt : string)
    (stream : list pyval) : M unit :=
  modify (send Ack) ;;
  try_except
    (model_info <- get_model_info "askpoe" guild_id ;;
     bot_handle <- getitem model_info "model" ;;
     chat_id <- dict_get model_info "chatId" ;;
     response <- askpoe_stream guild_id "" stream ;;
     askpoe_reply (askpoe_prefix display_name prompt bot_handle) response)
    (fun e =>
       match e with
       | TypeError =>
           modify (logging ERROR "TypeError processing request") ;;
           modify (send TypeErrorNotice)
       | _ =>
           modify (logging ERROR "Error processing request") ;;
           modify (send ProcessingErrorNotice)
       end).

End Handlers.

(** Lines 276-291 of [llm_set]: set the model of the guild and reset its
    chat. *)
Definition llm_set_store (guild_id model : string) : M unit :=
  current_info <- gets (fun w => llm_choices w !! guild_id) ;;
  (if isinstance_str (default PNone current_info) then
     store_entry guild_id (record (PStr model) PNone) ;;
     modify (logging INFO (migrated_within guild_id "llm-set"))
   else
     store_field guild_id "model" (PStr model) ;;
     store_field guild_id "chatId" PNone) ;;
  save_llm_choices.

(** [llm_set] (lines 264-296); [models] is what [get_available_models]
    returned. *)
Definition llm_set (guild_id model : string) (models : list string) : M unit :=
  modify (send Ack) ;;
  try_except
    (if bool_decide (model ∈ models) then
       llm_set_store guild_id model ;;
       modify (send (ModelSetNotice model))
     else modify (send (InvalidModelNotice model)))
    (fun _ =>
       modify (logging ERROR "Error setting LLM model") ;;
       modify (send SetErrorNotice)).

(** [reset] (lines 303-327). *)
Definition reset (guild_id : string) : M unit :=
  modify (send Ack) ;;
  try_except
    (stored <- gets (fun w => llm_choices w !! guild_id) ;;
     match stored with
     | Some v =>
         (if isinstance_str v then
            store_entry guild_id (record v PNone) ;;
            modify (logging INFO (migrated_within guild_id "reset"))
          else ret tt) ;;
         store_field guild_id "chatId" PNone ;;
         save_llm_choices ;;
         modify (send ResetDoneNotice)
     | None => modify (send GuildNotFoundNotice)
     end)
    (fun _ =>
       modify (logging ERROR "Error resetting conversation thread") ;;
       modify (send ResetErrorNotice)).

(** [clear] (lines 394-426); [chat_break] is the outcome of the call of
    line 416. *)
Definition clear (guild_id : string) (chat_break : result unit) : M unit :=
  modify (send Ack) ;;
  try_except
    (stored <- gets (fun w => llm_choices w !! guild_id) ;;
     let model_info := default PNone stored in
     if negb (truthy model_info) || negb (isinstance_dict model_info) then
       modify (send NoContextNotice)
     else
       bot_handle <- getitem model_info "model" ;;
       chat_id <- dict_get model_info "chatId" ;;
       if negb (truthy chat_id) then modify (send NoThreadNotice)
       else
         match chat_break with
         | Ok _ =>
             store_field guild_id "chatId" PNone ;;
             save_llm_choices ;;
             modify (send ClearedNotice)
         | Raise e => raise e
         end)
    (fun _ =>
       modify (logging ERROR "Error clearing conversation context") ;;
       modify (send ClearErrorNotice)).

(** ** Statements compared with the code *)

(** What migration makes of one value. *)
Definition migrated_value (v : pyval) : pyval :=
  if isinstance_str v then record v PNone else v.

(** The chunk round trip as the specification words it: the body portions
    give back the body, no message is longer than the limit, and no
    message but the first starts with the prefix. *)
Definition chunk_round_trip_as_stated (limit : nat) (p body : string) : Prop :=
  len p < limit ->
  exists messages,
    chunk limit p body = Segments messages /\
    concat_str (body_portions p messages) = body /\
    Forall (fun m => len m <= limit) messages /\
    (forall i m, messages !! i = Some m -> startswith m p = true -> i = 0).

(** The failure boundary as the specification words it, for the reply
    code of [askpoe] (lines 177-208, limit 2000): with a prefix of 2000
    characters or more, whatever the body, the empty one included, the
    answer is the too-long notice and nothing else. *)
Definition prefix_too_long_as_stated (p body : string) : Prop :=
  MESSAGE_LIMIT <= len p ->
  forall w, outbox (snd (askpoe_reply p body w)) = outbox w ++ [TooLongNotice].

(** Lines 172-173, the body of the [if] of line 171 in [askpoe_item]: the
    chat id given by the provider is stored and the store is saved. *)
Definition set_session_id (guild_id : string) (new_chat_id : pyval) : M unit :=
  store_field guild_id "chatId" new_chat_id ;;
  save_llm_choices.

(** The session update as the specification words it: without an entry
    for the guild it does nothing and raises nothing. *)
Definition session_update_as_stated (guild_id : string) (new_chat_id : pyval)
    (w : world) : Prop :=
  llm_choices w !! guild_id = None ->
  set_session_id guild_id new_chat_id w = (Ok tt, w).

(** Setting the model as the specification words it: without an entry for
    the guild it creates [{'model': model, 'chatId': None}] and does not
    fail. *)
Definition set_model_creates_as_stated (guild_id model : string)
    (w : world) : Prop :=
  llm_choices w !! guild_id = None ->
  fst (llm_set_store guild_id model w) = Ok tt /\
  llm_choices (snd (llm_set_store guild_id model w)) !! guild_id
  = Some (record (PStr model) PNone).

(** [n] copies of the character x. *)
Definition xs (n : nat) : string := string_of_list_ascii (repeat "x"%char n).

(** The state after import with [GUILD_ID = 1] and no file, and the same
    with an open chat for guild 1. *)
Definition started : world := snd (module_init 1 (boot None)).

Definition chatting : world :=
  snd (store_field "1" "chatId" (PStr "c1") started).

(** A store with one legacy entry and one record. *)
Definition legacy_world : world :=
  World (<["1" := PStr "claude"]>
           (<["2" := record (PStr "gpt3_5") (PStr "c7")]> ∅))
        None [] [].

(** An item yielded by the provider: a piece of text and the id of the
    chat it opened. *)
Definition first_item : pyval :=
  PDict (<["chatId" := PStr "c1"]> (<["response" := PStr "Paris."]> ∅)).

(** A computation keeps the durable copy in step with the store. *)
Definition keeps_persisted {A} (c : M A) : Prop :=
  forall w, persisted w -> persisted (snd (c w)).

(** ** The provider's list of models and the whole of llm_set *)

(** [get_available_models()] (lines 79-89).  [bots] is the outcome of
    [poe_client.get_available_bots()] followed by [list(bots.keys())]: the
    handles in the order of the dictionary, or the exception raised on the
    way.  Whatever is raised is caught and the list is empty. *)
Definition get_available_models (bots : result (list string))
  : M (list string) :=
  match bots with
  | Ok models =>
      modify (logging INFO "Retrieved available models successfully.") ;;
      ret models
  | Raise _ =>
      modify (logging ERROR "Error fetching available models") ;;
      ret []
  end.

(** [llm_set] (lines 264-296) with the call of line 270 in its place,
    inside the [try]. *)
Definition llm_set_command (guild_id model : string)
    (bots : result (list string)) : M unit :=
  modify (send Ack) ;;
  try_except
    (models <- get_available_models bots ;;
     if bool_decide (model ∈ models) then
       llm_set_store guild_id model ;;
       modify (send (ModelSetNotice model))
     else modify (send (InvalidModelNotice model)))
    (fun _ =>
       modify (logging ERROR "Error setting LLM model") ;;
       modify (send SetErrorNotice)).

(** ** Reading a stream of items

    What the loop of lines 164-175 takes from one item when it does not
    raise: the text it appends and the chat id it stores. *)

(** The item does not make [response += partial_response] raise: its
    field [response] is a string, or is missing, or is false. *)
Definition item_accepted (item : pyval) : bool :=
  match item with
  | PDict c =>
      match default (PStr "") (c !! "response") with
      | PStr _ => true
      | v => negb (truthy v)
      end
  | _ => true
  end.

Definition item_text (item : pyval) : string :=
  match item with
  | PDict c =>
      match c !! "response" with
      | Some (PStr s) => s
      | _ => ""
      end
  | _ => ""
  end.

Definition item_chat_id (item : pyval) : option pyval :=
  match item with
  | PDict c =>
      match c !! "chatId" with
      | Some v => if truthy v then Some v else None
      | None => None
      end
  | _ => None
  end.

(** The chat id of the last item that carries one. *)
Fixpoint last_chat_id (items : list pyval) : option pyval :=
  match items with
  | [] => None
  | item :: rest =>
      match last_chat_id rest with
      | Some v => Some v
      | None => item_chat_id item
      end
  end.

(** The world after the chat id [v] was stored in the entry [d] of the
    guild and the store was saved. *)
Definition with_chat_id (guild_id : string) (d : gmap string pyval)
    (v : pyval) (w : world) : world :=
  let m := <[guild_id := PDict (<["chatId" := v]> d)]> (llm_choices w) in
  World m (Some (Document (PDict m))) (log w) (outbox w).

(** A computation leaves the messages sent so far as they are. *)
Definition keeps_outbox {A} (c : M A) : Prop :=
  forall w, outbox (snd (c w)) = outbox w.

(** A store with a record whose chat is open. *)
Definition open_chat_world : world :=
  World (<["7" := record (PStr "claude") (PStr "c9")]> ∅) None [] [].

(** ** The running bot

    Every command is registered with [guild=discord.Object(id=GUILD_ID)]
    (lines 136, 220, 238, 262, 301, 332, 392 and 439), so the handlers run
    with [guild_id = str(GUILD_ID)], after the import of the module; the
    commands are taken one at a time.  [info] touches the store through
    lines 347-357 only; what else the bot does ([help], [llm-list],
    [reload], [on_ready], the rest of [info]) logs and sends. *)
Inductive reachable (py_str : pyval -> string) (GUILD_ID : Z)
  : world -> Prop :=
  | reach_import (d : option file) :
      fst (module_init GUILD_ID (boot d)) = Ok tt ->
      reachable py_str GUILD_ID (snd (module_init GUILD_ID (boot d)))
  | reach_askpoe (w : world) (display_name prompt : string)
      (stream : list pyval) :
      reachable py_str GUILD_ID w ->
      reachable py_str GUILD_ID
        (snd (askpoe py_str (pretty GUILD_ID) display_name prompt stream w))
  | reach_llm_set (w : world) (model : string) (bots : result (list string)) :
      reachable py_str GUILD_ID w ->
      reachable py_str GUILD_ID
        (snd (llm_set_command (pretty GUILD_ID) model bots w))
  | reach_reset (w : world) :
      reachable py_str GUILD_ID w ->
      reachable py_str GUILD_ID (snd (reset (pretty GUILD_ID) w))
  | reach_clear (w : world) (chat_break : result unit) :
      reachable py_str GUILD_ID w ->
      reachable py_str GUILD_ID (snd (clear (pretty GUILD_ID) chat_break w))
  | reach_info (w : world) :
      reachable py_str GUILD_ID w ->
      reachable py_str GUILD_ID
        (snd (get_model_info "info" (pretty GUILD_ID) w))
  | reach_send (w : world) (o : outgoing) :
      reachable py_str GUILD_ID w -> reachable py_str GUILD_ID (send o w)
  | reach_logging (w : world) (l : level) (msg : string) :
      reachable py_str GUILD_ID w ->
      reachable py_str GUILD_ID (logging l msg w).

(** A computation deletes no key of the store. *)
Definition keeps_keys {A} (c : M A) : Prop :=
  forall w g,
    is_Some (llm_choices w !! g) -> is_Some (llm_choices (snd (c w)) !! g).

(* ===================================================================== *)
(** * Part II: properties                                                 *)
(* ===================================================================== *)

(** ** Strings *)

Lemma append_nil_l (b : string) : "" +:+ b = b.
Proof. reflexivity. Qed.

Lemma append_cons (c : ascii) (a b : string) :
  String c a +:+ b = String c (a +:+ b).
Proof. reflexivity. Qed.

Lemma len_append (a b : string) : len (a +:+ b) = len a + len b.
Proof.
  induction a as [|c a IH]; [reflexivity|].
  rewrite append_cons. simpl. f_equal. exact IH.
Qed.

Lemma append_empty_r (a : string) : a +:+ "" = a.
Proof.
  induction a as [|c a IH]; [reflexivity|].
  rewrite append_cons. f_equal. exact IH.
Qed.

Lemma substring_take_drop (s : string) (i m : nat) :
  substring i m s = take m (drop i s).
Proof.
  revert s m. induction i as [|i IH]; intros s m.
  - revert s. induction m as [|m IHm]; intros [|c s]; simpl; try reflexivity.
    f_equal. apply IHm.
  - destruct s as [|c s]; simpl.
    + destruct m; reflexivity.
    + apply IH.
Qed.

Lemma py_slice_take_drop (s : string) (i j : nat) :
  py_slice s i j = take (j - i) (drop i s).
Proof. apply substring_take_drop. Qed.

Lemma take_drop (n : nat) (s : string) : take n s +:+ drop n s = s.
Proof.
  revert s. induction n as [|n IH]; intros [|c s]; simpl; try reflexivity.
  rewrite append_cons. f_equal. apply IH.
Qed.

Lemma len_take (n : nat) (s : string) : len (take n s) = Nat.min n (len s).
Proof.
  revert s. induction n as [|n IH]; intros [|c s]; simpl; try reflexivity.
  f_equal. apply IH.
Qed.

Lemma len_drop (n : nat) (s : string) : len (drop n s) = len s - n.
Proof.
  revert s. induction n as [|n IH]; intros [|c s]; simpl; try reflexivity.
  apply IH.
Qed.

Lemma drop_drop (n m : nat) (s : string) : drop n (drop m s) = drop (m + n) s.
Proof.
  revert s. induction m as [|m IH]; intros s; simpl; [reflexivity|].
  destruct s as [|c s]; [destruct n; reflexivity | apply IH].
Qed.

Lemma drop_append (p s : string) : drop (len p) (p +:+ s) = s.
Proof.
  induction p as [|c p IH]; [reflexivity|].
  rewrite append_cons. simpl. exact IH.
Qed.

Lemma startswith_append (p s : string) : startswith (p +:+ s) p = true.
Proof.
  unfold startswith. induction p as [|c p IH].
  - rewrite append_nil_l. destruct s; reflexivity.
  - rewrite append_cons. simpl.
    destruct (ascii_dec c c) as [_|Hne]; [exact IH | congruence].
Qed.

Lemma drop_0 (s : string) : drop 0 s = s.
Proof. destruct s; reflexivity. Qed.

Lemma len_empty (s : string) : len s = 0 -> s = "".
Proof. destruct s; [reflexivity | discriminate]. Qed.

Lemma concat_str_cons (m : string) (l : list string) :
  concat_str (m :: l) = m +:+ concat_str l.
Proof. reflexivity. Qed.

(** Cutting a string into [n] consecutive pieces of width [L] loses
    nothing when [n * L] covers its length. *)
Lemma concat_pieces (L n : nat) (s : string) :
  len s <= n * L ->
  concat_str (map (fun k => take L (drop (k * L) s)) (seq 0 n)) = s.
Proof.
  revert s. induction n as [|n IH]; intros s Hlen.
  - simpl. symmetry. apply len_empty. simpl in Hlen. lia.
  - rewrite <- cons_seq, <- seq_shift, map_cons, map_map, concat_str_cons.
    rewrite (map_ext _ (fun k => take L (drop (k * L) (drop L s)))).
    + rewrite IH.
      * simpl. apply take_drop.
      * rewrite len_drop. simpl in Hlen. lia.
    + intros k. rewrite drop_drop. reflexivity.
Qed.

(** ** The three cases of the chunker *)

Section Chunker.

Variable limit : nat.
Variables prefix body : string.

(** The characters left for the reply in the first message and the
    number of messages after the first. *)
Local Abbreviation available := (limit - len prefix).
Local Abbreviation count := ((len body - available - 1) / limit + 1).

Lemma chunk_fits :
  len prefix + len body <= limit ->
  chunk limit prefix body = Segments [prefix +:+ body].
Proof.
  intros H. unfold chunk. rewrite len_append.
  destruct (Nat.leb_spec (len prefix + len body) limit); [reflexivity | lia].
Qed.

Lemma chunk_too_long :
  limit < len prefix + len body ->
  limit <= len prefix ->
  chunk limit prefix body = PrefixTooLong.
Proof.
  intros H1 H2. unfold chunk. rewrite len_append.
  destruct (Nat.leb_spec (len prefix + len body) limit); [lia|].
  destruct (Z.leb_spec (Z.of_nat limit - Z.of_nat (len prefix)) 0);
    [reflexivity | lia].
Qed.

Lemma chunk_split :
  limit < len prefix + len body ->
  len prefix < limit ->
  chunk limit prefix body =
    Segments
      ((prefix +:+ take available body)
         :: map (fun k => take limit (drop (available + k * limit) body))
                (seq 0 count)).
Proof.
  intros H1 H2. unfold chunk. rewrite len_append.
  destruct (Nat.leb_spec (len prefix + len body) limit); [lia|].
  destruct (Z.leb_spec (Z.of_nat limit - Z.of_nat (len prefix)) 0); [lia|].
  replace (Z.to_nat (Z.of_nat limit - Z.of_nat (len prefix)))
    with available by lia.
  rewrite py_slice_take_drop, Nat.sub_0_r, drop_0.
  unfold py_range.
  destruct (Nat.ltb_spec available (len body)); [| lia].
  rewrite map_map. do 2 f_equal.
  apply map_ext. intros k. rewrite py_slice_take_drop.
  f_equal. lia.
Qed.

(** The messages after the first cover the rest of the reply. *)
Lemma count_covers :
  0 < limit -> len body - available <= count * limit.
Proof.
  intros Hpos.
  pose proof (Nat.div_mod_eq (len body - available - 1) limit) as Hdm.
  pose proof (Nat.mod_upper_bound (len body - available - 1) limit) as Hub.
  nia.
Qed.

Lemma count_tight :
  0 < limit -> available < len body ->
  (count - 1) * limit < len body - available.
Proof.
  intros Hpos Hlt.
  pose proof (Nat.div_mod_eq (len body - available - 1) limit) as Hdm.
  replace ((len body - available - 1) / limit + 1 - 1)
    with ((len body - available - 1) / limit) by lia.
  nia.
Qed.

Lemma rest_concat :
  0 < limit ->
  concat_str
    (map (fun k => take limit (drop (available + k * limit) body))
         (seq 0 count))
  = drop available body.
Proof.
  intros Hpos.
  rewrite (map_ext _ (fun k => take limit (drop (k * limit) (drop available body)))).
  - apply concat_pieces. rewrite len_drop. apply count_covers. exact Hpos.
  - intros k. rewrite drop_drop. reflexivity.
Qed.

End Chunker.

(** ** Claims on the chunker *)

(** C1 (as amended).  For every prefix [p] shorter than the limit and every
    body, [chunk] returns messages: the first is [p] followed by a first
    piece of the body, the others are the following pieces of the body and
    nothing else, so that the body portions, in order, give back the body;
    no message is longer than the limit; the first message starts with
    [p].  (A later message starts with [p] exactly when the body has [p]
    at that place.) *)
Theorem C1_chunk_round_trip (limit : nat) (p body : string) :
  len p < limit ->
  exists first rest,
    chunk limit p body = Segments ((p +:+ first) :: rest) /\
    first +:+ concat_str rest = body /\
    concat_str (body_portions p ((p +:+ first) :: rest)) = body /\
    Forall (fun m => len m <= limit) ((p +:+ first) :: rest) /\
    startswith (p +:+ first) p = true.
Proof.
  intros Hp.
  destruct (le_lt_dec (len p + len body) limit) as [Hfit|Hlong].
  - exists body, []. rewrite chunk_fits by exact Hfit.
    simpl. rewrite drop_append, !append_empty_r.
    repeat split; try reflexivity.
    + constructor; [rewrite len_append; lia | constructor].
    + apply startswith_append.
  - eexists _, _. rewrite chunk_split by assumption.
    split; [reflexivity|].
    assert (Hcat : take (limit - len p) body
                   +:+ concat_str
                         (map (fun k => take limit
                                 (drop (limit - len p + k * limit) body))
                              (seq 0 ((len body - (limit - len p) - 1) / limit + 1)))
                   = body).
    { rewrite rest_concat by lia. apply take_drop. }
    split; [exact Hcat|].
    split; [simpl; rewrite drop_append; exact Hcat|].
    split; [| apply startswith_append].
    constructor.
    + rewrite len_append, len_take. lia.
    + apply Forall_map, Forall_forall. intros k _. rewrite len_take. lia.
Qed.

Lemma C1_chunk_round_trip_witness :
  len "A:" < 20 /\
  exists first rest,
    chunk 20 "A:" (xs 30) = Segments (("A:" +:+ first) :: rest) /\
    first +:+ concat_str rest = xs 30 /\
    concat_str (body_portions "A:" (("A:" +:+ first) :: rest)) = xs 30 /\
    Forall (fun m => len m <= 20) (("A:" +:+ first) :: rest) /\
    startswith ("A:" +:+ first) "A:" = true.
Proof.
  assert (H : len "A:" < 20) by (simpl; lia).
  split; [exact H | exact (C1_chunk_round_trip 20 "A:" (xs 30) H)].
Defined.

(** C1 as stated fails: with the limit of the source, the prefix [A:] and
    a reply made of 1998 x followed by [A:yyy], the second message is
    [A:yyy], which starts with the prefix. *)
Lemma C1_later_segment_starts_with_prefix :
  ~ chunk_round_trip_as_stated MESSAGE_LIMIT "A:" (xs 1998 +:+ "A:yyy").
Proof.
  intros Hclaim.
  destruct Hclaim as (messages & Hchunk & _ & _ & Honly).
  - apply Nat.ltb_lt. vm_compute. reflexivity.
  - assert (Hrun : chunk MESSAGE_LIMIT "A:" (xs 1998 +:+ "A:yyy")
                   = Segments ["A:" +:+ xs 1998; "A:yyy"])
      by (vm_compute; reflexivity).
    rewrite Hrun in Hchunk. injection Hchunk as <-.
    specialize (Honly 1 "A:yyy" eq_refl eq_refl). discriminate.
Qed.

(** C4.  When prefix and body together exceed the limit and
    [available = limit - len prefix] is positive, the messages are
    [prefix + body[0:available]] and then the slices
    [body[available + k*limit : available + (k+1)*limit]] for
    [k = 0, ..., n-1]; the first message and every slice but the last have
    exactly [limit] characters, the last slice holds the remainder, which
    is not empty.  With limit 20, prefix [A:] and 30 x the messages are
    [A:] with 18 x, and 12 x. *)
Theorem C4_chunk_multi_segment :
  (forall (limit : nat) (prefix body : string),
      limit < len prefix + len body ->
      (0 < Z.of_nat limit - Z.of_nat (len prefix))%Z ->
      let available := limit - len prefix in
      let n := (len body - available - 1) / limit + 1 in
      let segment k :=
        py_slice body (available + k * limit) (available + (k + 1) * limit) in
      chunk limit prefix body
        = Segments ((prefix +:+ py_slice body 0 available)
                      :: map segment (seq 0 n)) /\
      len (prefix +:+ py_slice body 0 available) = limit /\
      (forall k, k + 1 < n -> len (segment k) = limit) /\
      len (segment (n - 1)) = len body - available - (n - 1) * limit /\
      0 < len (segment (n - 1)) <= limit) /\
  chunk 20 "A:" (xs 30) = Segments ["A:" +:+ xs 18; xs 12].
Proof.
  split; [| vm_compute; reflexivity].
  intros limit prefix body Hlong Havail available n segment.
  assert (Hp : len prefix < limit) by lia.
  assert (Hpos : 0 < limit) by lia.
  assert (Hbody : available < len body) by (unfold available; lia).
  pose proof (count_covers limit prefix body Hpos) as Hcov.
  pose proof (count_tight limit prefix body Hpos Hbody) as Htight.
  fold available in Hcov, Htight. fold n in Hcov, Htight.
  assert (Hseg : forall k,
             segment k = take limit (drop (available + k * limit) body)).
  { intros k. unfold segment. rewrite py_slice_take_drop. f_equal. lia. }
  assert (Hfirst : py_slice body 0 available = take available body).
  { rewrite py_slice_take_drop, Nat.sub_0_r, drop_0. reflexivity. }
  rewrite Hfirst.
  split.
  { rewrite chunk_split by assumption. fold available. fold n.
    do 2 f_equal. apply map_ext. intros k. symmetry. apply Hseg. }
  split.
  { rewrite len_append, len_take. unfold available in *. lia. }
  split.
  { intros k Hk. rewrite Hseg, len_take, len_drop. nia. }
  rewrite Hseg, len_take, len_drop. nia.
Qed.

Lemma C4_chunk_multi_segment_witness :
  20 < len "A:" + len (xs 30) /\
  (0 < Z.of_nat 20 - Z.of_nat (len "A:"))%Z /\
  chunk 20 "A:" (xs 30)
  = Segments (("A:" +:+ py_slice (xs 30) 0 18)
                :: map (fun k => py_slice (xs 30) (18 + k * 20) (18 + (k + 1) * 20))
                       (seq 0 1)).
Proof.
  assert (H1 : 20 < len "A:" + len (xs 30)) by (simpl; lia).
  assert (H2 : (0 < Z.of_nat 20 - Z.of_nat (len "A:"))%Z) by (simpl; lia).
  split; [exact H1 | split; [exact H2 |]].
  exact (proj1 (proj1 C4_chunk_multi_segment 20 "A:" (xs 30) H1 H2)).
Defined.

(** An empty reply never reaches the chunker: line 177 sends the
    no-response notice, whatever the prefix. *)
Lemma askpoe_reply_empty (prefix : string) (w : world) :
  askpoe_reply prefix "" w = (Ok tt, send NoResponseNotice w).
Proof. reflexivity. Qed.

(** C5 as stated fails for the empty body: with a prefix of 2000
    characters and an empty reply, the test of line 177 fails, the chunker
    is not reached, and the answer is the no-response notice, not the
    too-long notice. *)
Lemma C5_empty_body_gets_no_response_notice :
  ~ prefix_too_long_as_stated (xs 2000) "".
Proof.
  intros Hclaim.
  assert (Hp : MESSAGE_LIMIT <= len (xs 2000))
    by (apply Nat.leb_le; vm_compute; reflexivity).
  specialize (Hclaim Hp (boot None)).
  rewrite askpoe_reply_empty in Hclaim. simpl in Hclaim. discriminate.
Qed.

(** C5 (as amended).  For every prefix at least as long as the limit and
    every body that is not empty, [chunk] fails with [PrefixTooLong]; in
    [askpoe], where the limit is 2000, the too-long notice is then the only
    message sent, and neither the store nor the file is touched. *)
Theorem C5_chunk_prefix_too_long (limit : nat) (p body : string) :
  limit <= len p ->
  0 < len body ->
  chunk limit p body = PrefixTooLong /\
  (limit = MESSAGE_LIMIT ->
   forall w,
     fst (askpoe_reply p body w) = Ok tt /\
     outbox (snd (askpoe_reply p body w)) = outbox w ++ [TooLongNotice] /\
     llm_choices (snd (askpoe_reply p body w)) = llm_choices w /\
     disk (snd (askpoe_reply p body w)) = disk w).
Proof.
  intros Hp Hbody.
  assert (Hchunk : chunk limit p body = PrefixTooLong)
    by (apply chunk_too_long; lia).
  split; [exact Hchunk|].
  intros -> w. unfold askpoe_reply. rewrite Hchunk.
  destruct body; [simpl in Hbody; lia|]. repeat split; reflexivity.
Qed.

Lemma C5_chunk_prefix_too_long_witness :
  MESSAGE_LIMIT <= len (xs 2000) /\
  0 < len "z" /\
  chunk MESSAGE_LIMIT (xs 2000) "z" = PrefixTooLong /\
  forall w,
    outbox (snd (askpoe_reply (xs 2000) "z" w)) = outbox w ++ [TooLongNotice].
Proof.
  assert (H1 : MESSAGE_LIMIT <= len (xs 2000))
    by (apply Nat.leb_le; vm_compute; reflexivity).
  assert (H2 : 0 < len "z") by (simpl; lia).
  destruct (C5_chunk_prefix_too_long MESSAGE_LIMIT (xs 2000) "z" H1 H2)
    as [Hchunk Hreply].
  split; [exact H1 | split; [exact H2 | split; [exact Hchunk |]]].
  intros w. exact (proj1 (proj2 (Hreply eq_refl w))).
Defined.

(** ** The state monad and the store primitives *)

Lemma store_field_absent (guild_id field : string) (v : pyval) (w : world) :
  llm_choices w !! guild_id = None ->
  store_field guild_id field v w = (Raise (KeyError guild_id), w).
Proof. intros H. unfold store_field. rewrite H. reflexivity. Qed.

Lemma store_field_dict (guild_id field : string) (v : pyval) (w : world)
    (d : gmap string pyval) :
  llm_choices w !! guild_id = Some (PDict d) ->
  store_field guild_id field v w
  = (Ok tt,
     set_llm_choices
       (<[guild_id := PDict (<[field := v]> d)]> (llm_choices w)) w).
Proof. intros H. unfold store_field. rewrite H. reflexivity. Qed.

(** ** Migration *)

Lemma isinstance_str_migrated (v : pyval) :
  isinstance_str (migrated_value v) = false.
Proof. destruct v; reflexivity. Qed.

Section MigrationLoop.

Implicit Types (l : list (string * pyval)) (b : bool) (w : world).

Lemma migrate_loop_frame l b w :
  disk (snd (foldl migrate_item (b, w) l)) = disk w /\
  outbox (snd (foldl migrate_item (b, w) l)) = outbox w.
Proof.
  revert b w. induction l as [|[g v] l IH]; intros b w; [split; reflexivity|].
  simpl.
  destruct (isinstance_str v);
    (split; [rewrite (proj1 (IH _ _)) | rewrite (proj2 (IH _ _))];
     reflexivity).
Qed.

Lemma migrate_loop_flag l b w :
  fst (foldl migrate_item (b, w) l)
  = b || existsb (fun item => isinstance_str (snd item)) l.
Proof.
  revert b w. induction l as [|[g v] l IH]; intros b w.
  - simpl. rewrite orb_false_r. reflexivity.
  - simpl. destruct (isinstance_str v); rewrite IH; simpl.
    + rewrite orb_true_r. reflexivity.
    + reflexivity.
Qed.

Lemma migrate_loop_other l b w (k : string) :
  k ∉ l.*1 ->
  llm_choices (snd (foldl migrate_item (b, w) l)) !! k = llm_choices w !! k.
Proof.
  revert b w. induction l as [|[g v] l IH]; intros b w Hk; [reflexivity|].
  rewrite fmap_cons, not_elem_of_cons in Hk. destruct Hk as [Hne Hk].
  simpl in Hne. simpl. destruct (isinstance_str v).
  - rewrite IH by exact Hk. simpl. apply lookup_insert_ne. congruence.
  - apply IH. exact Hk.
Qed.

Lemma migrate_loop_item l b w (k : string) (v : pyval) :
  NoDup l.*1 ->
  (k, v) ∈ l ->
  llm_choices (snd (foldl migrate_item (b, w) l)) !! k
  = if isinstance_str v then Some (record v PNone) else llm_choices w !! k.
Proof.
  revert b w. induction l as [|[g x] l IH]; intros b w Hnd Hin.
  - inversion Hin.
  - rewrite fmap_cons, NoDup_cons in Hnd. destruct Hnd as [Hfresh Hnd].
    simpl in Hfresh. apply elem_of_cons in Hin. destruct Hin as [Heq|Hin].
    + injection Heq as <- <-. simpl.
      destruct (isinstance_str v) eqn:Hv;
        rewrite migrate_loop_other by exact Hfresh; simpl;
        [rewrite lookup_insert_eq |]; reflexivity.
    + assert (Hne : g ≠ k).
      { intros ->. apply Hfresh. apply list_elem_of_fmap.
        exists (k, v). split; [reflexivity | exact Hin]. }
      simpl. destruct (isinstance_str x).
      * rewrite IH by assumption. simpl.
        rewrite lookup_insert_ne by exact Hne. reflexivity.
      * apply IH; assumption.
Qed.

Lemma migrate_loop_nothing l b w :
  Forall (fun item => isinstance_str (snd item) = false) l ->
  foldl migrate_item (b, w) l = (b, w).
Proof.
  induction 1 as [|[g v] l Hv _ IH]; [reflexivity|].
  simpl in *. rewrite Hv. exact IH.
Qed.

End MigrationLoop.

Lemma migrate_unfold (w : world) :
  migrate_llm_choices w
  = (Ok (fst (foldl migrate_item (false, w) (map_to_list (llm_choices w)))),
     snd (foldl migrate_item (false, w) (map_to_list (llm_choices w)))).
Proof.
  unfold migrate_llm_choices.
  destruct (foldl migrate_item (false, w) (map_to_list (llm_choices w))).
  reflexivity.
Qed.

(** The store after migration, entry by entry. *)
Lemma migrate_store (w : world) :
  llm_choices (snd (migrate_llm_choices w)) = migrated_value <$> llm_choices w.
Proof.
  rewrite migrate_unfold. simpl. apply map_eq. intros k.
  rewrite lookup_fmap.
  destruct (llm_choices w !! k) as [v|] eqn:Hk.
  - rewrite (migrate_loop_item _ _ _ k v).
    + simpl. unfold migrated_value.
      destruct (isinstance_str v); [reflexivity | exact Hk].
    + apply NoDup_fst_map_to_list.
    + apply elem_of_map_to_list. exact Hk.
  - rewrite migrate_loop_other; [exact Hk|].
    intros Hin. apply list_elem_of_fmap in Hin.
    destruct Hin as ([k' v] & -> & Hin). simpl in Hk.
    apply elem_of_map_to_list in Hin. congruence.
Qed.

Lemma migrate_flag (w : world) :
  fst (migrate_llm_choices w)
  = Ok (existsb (fun item => isinstance_str (snd item))
          (map_to_list (llm_choices w))).
Proof. rewrite migrate_unfold. simpl. rewrite migrate_loop_flag. reflexivity. Qed.

(** A store without legacy entries is left as it is, and so are the file,
    the log and the messages. *)
Lemma migrate_nothing (w : world) :
  (forall g v, llm_choices w !! g = Some v -> isinstance_str v = false) ->
  migrate_llm_choices w = (Ok false, w).
Proof.
  intros Hnone. rewrite migrate_unfold, migrate_loop_nothing; [reflexivity|].
  apply Forall_forall. intros [g v] Hin. simpl.
  apply (Hnone g). apply elem_of_map_to_list. exact Hin.
Qed.

(** The fields of the dictionary built by [{'model': model, 'chatId':
    chat}]: these two and no other. *)
Lemma record_fields (model chat : pyval) :
  exists d : gmap string pyval,
    record model chat = PDict d /\
    d !! "model" = Some model /\
    d !! "chatId" = Some chat /\
    (forall f, f <> "model" -> f <> "chatId" -> d !! f = None).
Proof.
  eexists. split; [reflexivity|]. split; [|split].
  - rewrite lookup_insert_ne by discriminate. apply lookup_insert_eq.
  - apply lookup_insert_eq.
  - intros f H1 H2. rewrite !lookup_insert_ne by congruence.
    apply lookup_empty.
Qed.

(** C2.  One run of the migration turns every entry that is a bare string
    [S] into a dictionary whose field [model] is [S], whose field [chatId]
    is [None] and which has no other field, and returns whether it rewrote
    an entry; a second run right after it returns [False] and leaves the
    store, the file, the log and the messages as they are. *)
Theorem C2_migration_idempotent (w : world) :
  exists (migrated : bool) (w1 : world),
    migrate_llm_choices w = (Ok migrated, w1) /\
    (forall g S, llm_choices w !! g = Some (PStr S) ->
       exists d : gmap string pyval,
         llm_choices w1 !! g = Some (PDict d) /\
         d !! "model" = Some (PStr S) /\
         d !! "chatId" = Some PNone /\
         (forall f, f <> "model" -> f <> "chatId" -> d !! f = None)) /\
    (migrated = true <-> exists g S, llm_choices w !! g = Some (PStr S)) /\
    migrate_llm_choices w1 = (Ok false, w1).
Proof.
  pose proof (migrate_store w) as Hstore.
  pose proof (migrate_flag w) as Hflag.
  rewrite migrate_unfold in *. simpl in Hstore, Hflag.
  eexists _, _. split; [reflexivity|]. split; [|split].
  - intros g S Hg.
    destruct (record_fields (PStr S) PNone) as (d & Hd & Hfields).
    exists d. split; [|exact Hfields].
    rewrite Hstore, lookup_fmap, Hg. simpl.
    unfold migrated_value. simpl. rewrite Hd. reflexivity.
  - injection Hflag as ->. rewrite existsb_exists. split.
    + intros ([g v] & Hin & Hstr). simpl in Hstr.
      apply list_elem_of_In, elem_of_map_to_list in Hin.
      destruct v; try discriminate. eauto.
    + intros (g & S & Hg). exists (g, PStr S). split; [|reflexivity].
      apply list_elem_of_In, elem_of_map_to_list. exact Hg.
  - apply migrate_nothing. intros g v Hg.
    rewrite Hstore, lookup_fmap in Hg.
    destruct (llm_choices w !! g) as [x|]; [|discriminate].
    injection Hg as <-. apply isinstance_str_migrated.
Qed.

Lemma C2_migration_idempotent_witness :
  llm_choices legacy_world !! "1" = Some (PStr "claude") /\
  exists (w1 : world) (d : gmap string pyval),
    migrate_llm_choices legacy_world = (Ok true, w1) /\
    llm_choices w1 !! "1" = Some (PDict d) /\
    d !! "model" = Some (PStr "claude") /\
    d !! "chatId" = Some PNone /\
    migrate_llm_choices w1 = (Ok false, w1).
Proof.
  assert (H : llm_choices legacy_world !! "1" = Some (PStr "claude"))
    by (vm_compute; reflexivity).
  split; [exact H|].
  destruct (C2_migration_idempotent legacy_world)
    as (migrated & w1 & Hrun & Hrec & Hflag & Hagain).
  assert (Hm : migrated = true) by (apply Hflag; eauto).
  subst migrated.
  destruct (Hrec "1" "claude" H) as (d & Hd & Hmodel & Hchat & _).
  exists w1, d. repeat split; assumption.
Defined.

(** C10.  Migration keeps the set of guild identifiers, leaves every entry
    that is not a bare string exactly as it was, and touches neither the
    file nor the messages. *)
Theorem C10_migration_frame (w : world) :
  dom (llm_choices (snd (migrate_llm_choices w))) = dom (llm_choices w) /\
  (forall g v, llm_choices w !! g = Some v -> isinstance_str v = false ->
               llm_choices (snd (migrate_llm_choices w)) !! g = Some v) /\
  disk (snd (migrate_llm_choices w)) = disk w /\
  outbox (snd (migrate_llm_choices w)) = outbox w.
Proof.
  split; [|split].
  - rewrite migrate_store. apply dom_fmap_L.
  - intros g v Hg Hv. rewrite migrate_store, lookup_fmap, Hg. simpl.
    unfold migrated_value. rewrite Hv. reflexivity.
  - rewrite migrate_unfold. simpl. apply migrate_loop_frame.
Qed.

Lemma C10_migration_frame_witness :
  llm_choices legacy_world !! "2" = Some (record (PStr "gpt3_5") (PStr "c7")) /\
  llm_choices (snd (migrate_llm_choices legacy_world)) !! "2"
  = Some (record (PStr "gpt3_5") (PStr "c7")).
Proof.
  assert (H : llm_choices legacy_world !! "2"
              = Some (record (PStr "gpt3_5") (PStr "c7")))
    by (vm_compute; reflexivity).
  split; [exact H|].
  apply (proj1 (proj2 (C10_migration_frame legacy_world)) "2" _ H).
  reflexivity.
Defined.

(** ** Setting the model (llm_set) *)

Lemma llm_set_store_dict (guild_id model : string) (w : world)
    (d : gmap string pyval) :
  llm_choices w !! guild_id = Some (PDict d) ->
  llm_set_store guild_id model w
  = (Ok tt,
     let m := <[guild_id :=
                  PDict (<["chatId" := PNone]> (<["model" := PStr model]> d))]>
                (llm_choices w) in
     World m (Some (Document (PDict m))) (log w) (outbox w)).
Proof.
  intros Hd. unfold llm_set_store, bind, gets. rewrite Hd. simpl.
  rewrite (store_field_dict _ _ _ _ d) by exact Hd.
  erewrite store_field_dict by (simpl; apply lookup_insert_eq).
  simpl. rewrite insert_insert_eq. reflexivity.
Qed.

Lemma llm_set_store_legacy (guild_id model : string) (w : world) (s : string) :
  llm_choices w !! guild_id = Some (PStr s) ->
  llm_set_store guild_id model w
  = (Ok tt,
     let m := <[guild_id := record (PStr model) PNone]> (llm_choices w) in
     World m (Some (Document (PDict m)))
           (log w ++ [(INFO, migrated_within guild_id "llm-set")]) (outbox w)).
Proof.
  intros Hd. unfold llm_set_store, bind, gets. rewrite Hd. reflexivity.
Qed.

Lemma llm_set_store_absent (guild_id model : string) (w : world) :
  llm_choices w !! guild_id = None ->
  llm_set_store guild_id model w = (Raise (KeyError guild_id), w).
Proof.
  intros Hd. unfold llm_set_store, bind, gets. rewrite Hd. simpl.
  rewrite store_field_absent by exact Hd. reflexivity.
Qed.

(** C3.  When the store holds a record for the guild whose chat id is
    set, whatever it is, [llm_set] with any model leaves the record with
    that model and with chat id [None]; the other fields of the record
    stay, and the store is saved. *)
Theorem C3_set_model_resets_session (w : world) (guild_id m : string)
    (d : gmap string pyval) (sid : pyval) :
  llm_choices w !! guild_id = Some (PDict d) ->
  d !! "chatId" = Some sid ->
  sid <> PNone ->
  exists (w' : world) (d' : gmap string pyval),
    llm_set_store guild_id m w = (Ok tt, w') /\
    llm_choices w' !! guild_id = Some (PDict d') /\
    d' !! "chatId" = Some PNone /\
    d' !! "model" = Some (PStr m) /\
    (forall f, f <> "chatId" -> f <> "model" -> d' !! f = d !! f) /\
    persisted w'.
Proof.
  intros Hd _ _. eexists _, _.
  split; [apply llm_set_store_dict; exact Hd|]. simpl.
  split; [apply lookup_insert_eq|].
  split; [apply lookup_insert_eq|].
  split; [rewrite lookup_insert_ne by discriminate; apply lookup_insert_eq|].
  split; [|reflexivity].
  intros f H1 H2. rewrite !lookup_insert_ne by congruence. reflexivity.
Qed.

Lemma C3_set_model_resets_session_witness :
  llm_choices chatting !! "1"
  = Some (record (PStr "gpt3_5") (PStr "c1")) /\
  exists (w' : world) (d' : gmap string pyval),
    llm_set_store "1" "claude" chatting = (Ok tt, w') /\
    llm_choices w' !! "1" = Some (PDict d') /\
    d' !! "chatId" = Some PNone /\
    d' !! "model" = Some (PStr "claude") /\
    (forall f, f <> "chatId" -> f <> "model" ->
               d' !! f = (<["chatId" := PStr "c1"]>
                            (<["model" := PStr "gpt3_5"]> ∅) : gmap string pyval) !! f) /\
    persisted w'.
Proof.
  assert (H : llm_choices chatting !! "1"
              = Some (record (PStr "gpt3_5") (PStr "c1")))
    by (vm_compute; reflexivity).
  split; [exact H|].
  apply (C3_set_model_resets_session chatting "1" "claude" _ (PStr "c1") H).
  - vm_compute. reflexivity.
  - discriminate.
Defined.

(** ** Loading (lines 38-47) and the start-up default (lines 71-76) *)

Lemma module_init_no_file (GUILD_ID : Z) :
  module_init GUILD_ID (boot None)
  = (Ok tt, World (<[pretty GUILD_ID := default_record]> ∅) None [] []).
Proof.
  unfold module_init, bind, load, boot. simpl.
  rewrite migrate_nothing by (intros g v Hg; simpl in Hg; rewrite lookup_empty in Hg; discriminate).
  unfold gets, ret, store_entry, modify. simpl.
  rewrite lookup_empty. reflexivity.
Qed.

Lemma module_init_unparsable (GUILD_ID : Z) (text : string) :
  module_init GUILD_ID (boot (Some (Unparsable text)))
  = (Ok tt,
     World (<[pretty GUILD_ID := default_record]> ∅)
           (Some (Unparsable text)) [decode_failure] []).
Proof.
  unfold module_init, bind, load, boot. simpl.
  rewrite migrate_nothing by (intros g v Hg; simpl in Hg; rewrite lookup_empty in Hg; discriminate).
  unfold gets, ret, store_entry, modify. simpl.
  rewrite lookup_empty. reflexivity.
Qed.

(** Loading recovers when the file is absent or is not JSON: in both
    cases [llm_choices] is bound to the empty dictionary; in the second the
    failure is logged at level ERROR; and the import of the module runs to
    its end. *)
Lemma load_absent_or_not_json :
  (forall m lg out,
      load (World m None lg out) = (Ok (PDict ∅), World m None lg out)) /\
  (forall m text lg out,
      load (World m (Some (Unparsable text)) lg out)
      = (Ok (PDict ∅),
         World m (Some (Unparsable text)) (lg ++ [decode_failure]) out)) /\
  (forall GUILD_ID, fst (module_init GUILD_ID (boot None)) = Ok tt) /\
  (forall GUILD_ID text,
      fst (module_init GUILD_ID (boot (Some (Unparsable text)))) = Ok tt).
Proof.
  split; [reflexivity|]. split; [reflexivity|]. split.
  - intros G. rewrite module_init_no_file. reflexivity.
  - intros G text. rewrite module_init_unparsable. reflexivity.
Qed.

(** C8.  A file that is present and cannot be read as JSON text because
    its bytes are not text in the encoding: [json.load] raises
    [UnicodeDecodeError], the clause of line 43 catches [JSONDecodeError]
    only, and the exception leaves the module: nothing is logged, no store
    is bound, and the import, with it the process, stops.  The same holds
    for every exception of [json.load] other than [JSONDecodeError]. *)
Theorem C8_undecodable_file_stops_import (GUILD_ID : Z) :
  load (boot (Some (Refused UnicodeDecodeError)))
  = (Raise UnicodeDecodeError, boot (Some (Refused UnicodeDecodeError))) /\
  module_init GUILD_ID (boot (Some (Refused UnicodeDecodeError)))
  = (Raise UnicodeDecodeError, boot (Some (Refused UnicodeDecodeError))) /\
  (forall e, e <> JSONDecodeError ->
     module_init GUILD_ID (boot (Some (Refused e)))
     = (Raise e, boot (Some (Refused e)))).
Proof.
  split; [reflexivity|]. split; [reflexivity|].
  intros e He. destruct e; try reflexivity. congruence.
Qed.

(** C9.  Import with no file and any [GUILD_ID]: the entry of the default
    guild is created in memory (lines 72-76) and [save_llm_choices] is not
    called, so the import ends with a store of one entry and no file. *)
Theorem C9_default_entry_not_persisted (GUILD_ID : Z) :
  fst (module_init GUILD_ID (boot None)) = Ok tt /\
  llm_choices (snd (module_init GUILD_ID (boot None))) !! pretty GUILD_ID
  = Some default_record /\
  disk (snd (module_init GUILD_ID (boot None))) = None /\
  ~ persisted (snd (module_init GUILD_ID (boot None))).
Proof.
  rewrite module_init_no_file. simpl.
  split; [reflexivity|]. split; [apply lookup_insert_eq|].
  split; [reflexivity|]. unfold persisted. simpl. discriminate.
Qed.

(** ** The session update of askpoe (lines 170-173) *)

(** With an entry that is a dictionary, only its field [chatId] changes,
    and the store is saved. *)
Lemma askpoe_item_updates_session (guild_id response s : string) (w : world)
    (c d : gmap string pyval) (new_chat_id : pyval) :
  c !! "response" = Some (PStr s) ->
  c !! "chatId" = Some new_chat_id ->
  truthy new_chat_id = true ->
  llm_choices w !! guild_id = Some (PDict d) ->
  askpoe_item guild_id response (PDict c) w
  = (Ok (if truthy (PStr s) then response +:+ s else response),
     let m := <[guild_id := PDict (<["chatId" := new_chat_id]> d)]>
                (llm_choices w) in
     World m (Some (Document (PDict m))) (log w) (outbox w)).
Proof.
  intros Hr Hc Ht Hd. unfold askpoe_item, bind. rewrite Hr, Hc. simpl.
  destruct (negb (len s =? 0)); simpl; rewrite Ht;
    rewrite (store_field_dict _ _ _ _ d) by exact Hd; reflexivity.
Qed.

(** With no entry, the subscript of line 172 raises. *)
Lemma askpoe_item_absent (guild_id response s : string) (w : world)
    (c : gmap string pyval) (new_chat_id : pyval) :
  c !! "response" = Some (PStr s) ->
  c !! "chatId" = Some new_chat_id ->
  truthy new_chat_id = true ->
  llm_choices w !! guild_id = None ->
  askpoe_item guild_id response (PDict c) w = (Raise (KeyError guild_id), w).
Proof.
  intros Hr Hc Ht Hd. unfold askpoe_item, bind. rewrite Hr, Hc. simpl.
  destruct (negb (len s =? 0)); simpl; rewrite Ht;
    rewrite store_field_absent by exact Hd; reflexivity.
Qed.

(** ** Every handler saves what it writes

    None of the handlers leaves the file behind the store: each of their
    writes is followed by [save_llm_choices] before the handler ends or
    anything else can fail. *)

Section Persistence.

Context {A B : Type}.

Lemma keeps_ret (a : A) : keeps_persisted (ret a).
Proof. intros w Hw. exact Hw. Qed.

Lemma keeps_raise (e : exn) : keeps_persisted (@raise A e).
Proof. intros w Hw. exact Hw. Qed.

Lemma keeps_gets (f : world -> A) : keeps_persisted (gets f).
Proof. intros w Hw. exact Hw. Qed.

Lemma keeps_bind (c : M A) (k : A -> M B) :
  keeps_persisted c -> (forall a, keeps_persisted (k a)) ->
  keeps_persisted (bind c k).
Proof.
  intros Hc Hk w Hw. unfold bind. specialize (Hc w Hw).
  destruct (c w) as [[a|e] w']; simpl in *; [apply Hk|]; exact Hc.
Qed.

Lemma keeps_try_except (c : M A) (h : exn -> M A) :
  keeps_persisted c -> (forall e, keeps_persisted (h e)) ->
  keeps_persisted (try_except c h).
Proof.
  intros Hc Hh w Hw. unfold try_except. specialize (Hc w Hw).
  destruct (c w) as [[a|e] w']; simpl in *; [|apply Hh]; exact Hc.
Qed.

Lemma keeps_field_save (guild_id field : string) (v : pyval) (k : M A) :
  keeps_persisted k ->
  keeps_persisted (store_field guild_id field v ;; save_llm_choices ;; k).
Proof.
  intros Hk w Hw. unfold bind, store_field.
  destruct (llm_choices w !! guild_id) as [[]|]; simpl; try exact Hw.
  apply Hk. reflexivity.
Qed.

Lemma keeps_entry_save (guild_id : string) (v : pyval) (k : M A) :
  keeps_persisted k ->
  keeps_persisted (store_entry guild_id v ;; save_llm_choices ;; k).
Proof. intros Hk w Hw. unfold bind. simpl. apply Hk. reflexivity. Qed.

End Persistence.

Lemma keeps_send (o : outgoing) : keeps_persisted (modify (send o)).
Proof. intros w Hw. exact Hw. Qed.

Lemma keeps_logging (l : level) (msg : string) :
  keeps_persisted (modify (logging l msg)).
Proof. intros w Hw. exact Hw. Qed.

Lemma keeps_getitem (v : pyval) (key : string) : keeps_persisted (getitem v key).
Proof.
  destruct v; try apply keeps_raise. simpl.
  destruct (d !! key); [apply keeps_ret | apply keeps_raise].
Qed.

Lemma keeps_dict_get (v : pyval) (key : string) :
  keeps_persisted (dict_get v key).
Proof. destruct v; try apply keeps_raise. apply keeps_ret. Qed.

Lemma keeps_send_all (messages : list string) :
  keeps_persisted (send_all messages).
Proof.
  induction messages as [|m rest IH]; [apply keeps_ret|].
  simpl. apply keeps_bind; [apply keeps_send | intros _; exact IH].
Qed.

Lemma keeps_get_model_info (command guild_id : string) :
  keeps_persisted (get_model_info command guild_id).
Proof.
  unfold get_model_info. apply keeps_bind; [apply keeps_gets|].
  intros stored. destruct (isinstance_str (default default_record stored)).
  - apply keeps_entry_save.
    apply keeps_bind; [apply keeps_logging | intros _; apply keeps_ret].
  - apply keeps_ret.
Qed.

Lemma keeps_askpoe_item (guild_id response : string) (chunk : pyval) :
  keeps_persisted (askpoe_item guild_id response chunk).
Proof.
  destruct chunk; try apply keeps_ret. simpl.
  apply keeps_bind.
  - destruct (truthy (default (PStr "") (d !! "response")));
      [|apply keeps_ret].
    destruct (default (PStr "") (d !! "response"));
      first [apply keeps_ret | apply keeps_raise].
  - intros r. apply keeps_bind; [|intros _; apply keeps_ret].
    destruct (truthy (default PNone (d !! "chatId"))); [|apply keeps_ret].
    intros w Hw.
    pose proof (keeps_field_save guild_id "chatId"
                  (default PNone (d !! "chatId")) (ret tt) (keeps_ret tt) w Hw)
      as Hk.
    unfold bind in *.
    destruct (store_field guild_id "chatId" (default PNone (d !! "chatId")) w)
      as [[[]|e] w']; exact Hk.
Qed.

Lemma keeps_askpoe_stream (guild_id : string) (items : list pyval) :
  forall response, keeps_persisted (askpoe_stream guild_id response items).
Proof.
  induction items as [|chunk rest IH]; intros response; [apply keeps_ret|].
  simpl. apply keeps_bind; [apply keeps_askpoe_item | intros r; apply IH].
Qed.

Lemma keeps_askpoe_reply (prefix response : string) :
  keeps_persisted (askpoe_reply prefix response).
Proof.
  unfold askpoe_reply. destruct (truthy (PStr response)); [|apply keeps_send].
  destruct (chunk MESSAGE_LIMIT prefix response);
    [apply keeps_send_all | apply keeps_send].
Qed.

Lemma keeps_llm_set_store (guild_id model : string) :
  keeps_persisted (llm_set_store guild_id model).
Proof.
  intros w Hw.
  destruct (llm_choices w !! guild_id) as [v|] eqn:Hv.
  - destruct v;
      try (unfold llm_set_store, bind, gets, store_field; rewrite Hv; simpl;
           rewrite Hv; exact Hw).
    + rewrite (llm_set_store_legacy _ _ _ s) by exact Hv. reflexivity.
    + rewrite (llm_set_store_dict _ _ _ d) by exact Hv. reflexivity.
  - rewrite llm_set_store_absent by exact Hv. exact Hw.
Qed.

(** X20.  The invariant of the handlers: if the file agrees with the store when
    a command arrives, it agrees with it when the command is done. *)
Theorem handlers_keep_persisted :
  (forall py_str guild_id display_name prompt stream,
      keeps_persisted (askpoe py_str guild_id display_name prompt stream)) /\
  (forall guild_id model models,
      keeps_persisted (llm_set guild_id model models)) /\
  (forall guild_id, keeps_persisted (reset guild_id)) /\
  (forall guild_id chat_break, keeps_persisted (clear guild_id chat_break)).
Proof.
  split; [|split; [|split]].
  - intros py_str guild_id display_name prompt stream. unfold askpoe.
    apply keeps_bind; [apply keeps_send | intros _].
    apply keeps_try_except.
    + apply keeps_bind; [apply keeps_get_model_info | intros model_info].
      apply keeps_bind; [apply keeps_getitem | intros bot_handle].
      apply keeps_bind; [apply keeps_dict_get | intros chat_id].
      apply keeps_bind; [apply keeps_askpoe_stream | intros response].
      apply keeps_askpoe_reply.
    + intros []; (apply keeps_bind; [apply keeps_logging | intros _; apply keeps_send]).
  - intros guild_id model models. unfold llm_set.
    apply keeps_bind; [apply keeps_send | intros _].
    apply keeps_try_except.
    + destruct (bool_decide (model ∈ models)); [|apply keeps_send].
      apply keeps_bind; [apply keeps_llm_set_store | intros _; apply keeps_send].
    + intros e. apply keeps_bind; [apply keeps_logging | intros _; apply keeps_send].
  - intros guild_id. unfold reset.
    apply keeps_bind; [apply keeps_send | intros _].
    apply keeps_try_except.
    + apply keeps_bind; [apply keeps_gets | intros stored].
      destruct stored as [v|]; [|apply keeps_send].
      destruct (isinstance_str v) eqn:Hstr.
      * intros w Hw. unfold bind, store_entry, modify, store_field. simpl.
        rewrite lookup_insert_eq. reflexivity.
      * apply (keeps_bind (ret tt)); [apply keeps_ret | intros _].
        apply keeps_field_save, keeps_send.
    + intros e. apply keeps_bind; [apply keeps_logging | intros _; apply keeps_send].
  - intros guild_id chat_break. unfold clear.
    apply keeps_bind; [apply keeps_send | intros _].
    apply keeps_try_except.
    + apply keeps_bind; [apply keeps_gets | intros stored].
      destruct (negb (truthy (default PNone stored))
                || negb (isinstance_dict (default PNone stored)));
        [apply keeps_send|].
      apply keeps_bind; [apply keeps_getitem | intros bot_handle].
      apply keeps_bind; [apply keeps_dict_get | intros chat_id].
      destruct (negb (truthy chat_id)); [apply keeps_send|].
      destruct chat_break; [|apply keeps_raise].
      apply keeps_field_save, keeps_send.
    + intros e. apply keeps_bind; [apply keeps_logging | intros _; apply keeps_send].
Qed.

(* ===================================================================== *)
(** * Part III: further properties of the code                            *)
(* ===================================================================== *)

(** ** The chunker *)

Lemma append_assoc (a b c : string) : (a +:+ b) +:+ c = a +:+ (b +:+ c).
Proof.
  induction a as [|x a IH]; [reflexivity|].
  rewrite !append_cons. f_equal. exact IH.
Qed.

(** The messages of the third case of the chunker are the whole text, and
    none of them is empty or longer than the limit. *)
Lemma split_messages_sound (limit : nat) (p body : string) :
  limit < len p + len body ->
  len p < limit ->
  let messages :=
    (p +:+ take (limit - len p) body)
      :: map (fun k => take limit (drop (limit - len p + k * limit) body))
           (seq 0 ((len body - (limit - len p) - 1) / limit + 1)) in
  concat_str messages = p +:+ body /\
  Forall (fun m => 0 < len m <= limit) messages.
Proof.
  intros Hlong Hp messages. subst messages.
  assert (Hpos : 0 < limit) by lia.
  assert (Hbody : limit - len p < len body) by lia.
  pose proof (count_tight limit p body Hpos Hbody) as Htight.
  split.
  - rewrite concat_str_cons, rest_concat by exact Hpos.
    rewrite append_assoc, take_drop. reflexivity.
  - constructor.
    + rewrite len_append, len_take. lia.
    + apply Forall_map, Forall_forall. intros k Hk.
      apply list_elem_of_In, in_seq in Hk.
      rewrite len_take, len_drop. nia.
Qed.

(** X1.  The chunker fails exactly when the text does not fit in one
    message and the prefix alone fills the limit. *)
Theorem chunk_fails_iff (limit : nat) (p body : string) :
  chunk limit p body = PrefixTooLong <->
  limit < len p + len body /\ limit <= len p.
Proof.
  split.
  - intros Hfail.
    destruct (le_lt_dec (len p + len body) limit) as [Hfit|Hlong].
    + rewrite chunk_fits in Hfail by exact Hfit. discriminate.
    + split; [exact Hlong|].
      destruct (le_lt_dec limit (len p)) as [Hp|Hp]; [exact Hp|].
      rewrite chunk_split in Hfail by assumption. discriminate.
  - intros [Hlong Hp]. apply chunk_too_long; assumption.
Qed.

(** X2.  Whatever the chunker returns is the whole text, prefix and reply,
    cut into messages that are neither empty nor longer than the limit. *)
Theorem chunk_messages_sound (limit : nat) (p body : string)
    (messages : list string) :
  chunk limit p body = Segments messages ->
  0 < len p + len body ->
  messages <> [] /\
  concat_str messages = p +:+ body /\
  Forall (fun m => 0 < len m <= limit) messages.
Proof.
  intros Hchunk Hne.
  destruct (le_lt_dec (len p + len body) limit) as [Hfit|Hlong].
  - rewrite chunk_fits in Hchunk by exact Hfit. injection Hchunk as <-.
    split; [discriminate|]. split.
    + simpl. apply append_empty_r.
    + constructor; [rewrite len_append; lia | constructor].
  - destruct (le_lt_dec limit (len p)) as [Hp|Hp].
    { rewrite chunk_too_long in Hchunk by assumption. discriminate. }
    rewrite chunk_split in Hchunk by assumption. injection Hchunk as <-.
    split; [discriminate|]. apply split_messages_sound; assumption.
Qed.

Lemma chunk_messages_sound_witness :
  chunk 20 "A:" (xs 30) = Segments ["A:" +:+ xs 18; xs 12] /\
  0 < len "A:" + len (xs 30) /\
  concat_str ["A:" +:+ xs 18; xs 12] = "A:" +:+ xs 30 /\
  Forall (fun m => 0 < len m <= 20) ["A:" +:+ xs 18; xs 12].
Proof.
  assert (H1 : chunk 20 "A:" (xs 30) = Segments ["A:" +:+ xs 18; xs 12])
    by (vm_compute; reflexivity).
  assert (H2 : 0 < len "A:" + len (xs 30)) by (simpl; lia).
  split; [exact H1 | split; [exact H2 |]].
  exact (proj2 (chunk_messages_sound 20 "A:" (xs 30) _ H1 H2)).
Defined.

Lemma send_all_outbox (messages : list string) (w : world) :
  send_all messages w
  = (Ok tt,
     World (llm_choices w) (disk w) (log w)
           (outbox w ++ map Content messages)).
Proof.
  revert w. induction messages as [|m rest IH]; intros w.
  - simpl. rewrite app_nil_r. destruct w; reflexivity.
  - simpl. unfold bind, modify. rewrite IH. simpl.
    rewrite <- app_assoc. reflexivity.
Qed.

(** The reply part of [askpoe] always sends something and never raises. *)
Lemma askpoe_reply_answers (prefix response : string) (w : world) :
  exists sent : list outgoing,
    sent <> [] /\
    askpoe_reply prefix response w
    = (Ok tt, World (llm_choices w) (disk w) (log w) (outbox w ++ sent)).
Proof.
  unfold askpoe_reply. destruct (truthy (PStr response)).
  - destruct (chunk MESSAGE_LIMIT prefix response) as [messages|] eqn:Hc.
    + exists (map Content messages). rewrite send_all_outbox.
      split; [|reflexivity].
      unfold chunk in Hc.
      destruct (len (prefix +:+ response) <=? MESSAGE_LIMIT);
        [injection Hc as <-; discriminate|].
      destruct (Z.of_nat MESSAGE_LIMIT - Z.of_nat (len prefix) <=? 0)%Z;
        [discriminate | injection Hc as <-; discriminate].
    + exists [TooLongNotice]. split; [discriminate | reflexivity].
  - exists [NoResponseNotice]. split; [discriminate | reflexivity].
Qed.

(** The run of the reply part in the model, by cases. *)
Lemma askpoe_reply_run (prefix response : string) (w : world) :
  exists sent : list outgoing,
    askpoe_reply prefix response w
    = (Ok tt, World (llm_choices w) (disk w) (log w) (outbox w ++ sent)) /\
    (response = "" -> sent = [NoResponseNotice]) /\
    (response <> "" -> MESSAGE_LIMIT <= len prefix ->
     sent = [TooLongNotice]) /\
    (response <> "" -> len prefix < MESSAGE_LIMIT ->
     exists messages,
       sent = map Content messages /\
       messages <> [] /\
       concat_str messages = prefix +:+ response /\
       Forall (fun m => 0 < len m <= MESSAGE_LIMIT) messages).
Proof.
  destruct response as [|c r].
  - exists [NoResponseNotice]. split; [reflexivity|].
    split; [reflexivity|]. split; intros H; congruence.
  - assert (Hlen : 0 < len (String c r)) by (simpl; lia).
    unfold askpoe_reply.
    change (truthy (PStr (String c r))) with true. cbv iota.
    destruct (le_lt_dec MESSAGE_LIMIT (len prefix)) as [Hp|Hp].
    + rewrite chunk_too_long by lia.
      exists [TooLongNotice]. split; [reflexivity|].
      split; [discriminate|]. split; [reflexivity|]. intros _ H. lia.
    + destruct (le_lt_dec (len prefix + len (String c r)) MESSAGE_LIMIT)
        as [Hfit|Hlong].
      * rewrite chunk_fits by exact Hfit. rewrite send_all_outbox.
        eexists. split; [reflexivity|]. split; [discriminate|].
        split; [intros _ H; lia|]. intros _ _.
        exists [prefix +:+ String c r]. split; [reflexivity|].
        split; [discriminate|]. split.
        -- simpl. apply append_empty_r.
        -- constructor; [rewrite len_append; lia | constructor].
      * rewrite chunk_split by assumption. rewrite send_all_outbox.
        eexists. split; [reflexivity|]. split; [discriminate|].
        split; [intros _ H; lia|]. intros _ _.
        eexists. split; [reflexivity|]. split; [discriminate|].
        apply split_messages_sound; assumption.
Qed.

(** X3.  What [askpoe] delivers for a gathered reply (lines 177-208): the
    no-response notice for an empty reply; the too-long notice alone when
    the label fills 2000 characters; otherwise the label and the reply,
    whole and in order, in messages of 1 to 2000 characters.  It does not
    raise, and the store and the file are not touched. *)
Theorem askpoe_reply_delivery (prefix response : string) (w : world) :
  fst (askpoe_reply prefix response w) = Ok tt /\
  llm_choices (snd (askpoe_reply prefix response w)) = llm_choices w /\
  disk (snd (askpoe_reply prefix response w)) = disk w /\
  exists sent : list outgoing,
    outbox (snd (askpoe_reply prefix response w)) = outbox w ++ sent /\
    (response = "" -> sent = [NoResponseNotice]) /\
    (response <> "" -> MESSAGE_LIMIT <= len prefix ->
     sent = [TooLongNotice]) /\
    (response <> "" -> len prefix < MESSAGE_LIMIT ->
     exists messages,
       sent = map Content messages /\
       messages <> [] /\
       concat_str messages = prefix +:+ response /\
       Forall (fun m => 0 < len m <= MESSAGE_LIMIT) messages).
Proof.
  destruct (askpoe_reply_run prefix response w)
    as (sent & Hrun & Hempty & Hlong & Hsplit).
  rewrite Hrun. cbn [fst snd llm_choices disk outbox].
  split; [reflexivity|]. split; [reflexivity|]. split; [reflexivity|].
  exists sent. split; [reflexivity|].
  split; [exact Hempty|]. split; [exact Hlong | exact Hsplit].
Qed.

(** ** Import with a file that parses *)

(** X4.  A file that is JSON but not an object stops the import: line 57 calls
    [items] on what was loaded and raises [AttributeError]; nothing was
    written before. *)
Theorem module_init_non_object (GUILD_ID : Z) (v : pyval) :
  isinstance_dict v = false ->
  module_init GUILD_ID (boot (Some (Document v)))
  = (Raise AttributeError, boot (Some (Document v))).
Proof. intros Hv. destruct v; try reflexivity. discriminate. Qed.

Lemma module_init_non_object_witness :
  isinstance_dict (PList []) = false /\
  module_init 1 (boot (Some (Document (PList []))))
  = (Raise AttributeError, boot (Some (Document (PList [])))).
Proof.
  assert (H : isinstance_dict (PList []) = false) by reflexivity.
  split; [exact H | exact (module_init_non_object 1 (PList []) H)].
Defined.

(** The parts of the world after the import of a file that holds the
    object [m]. *)
Lemma module_init_object (GUILD_ID : Z) (m : gmap string pyval) :
  let d := Some (Document (PDict m)) in
  let w' := snd (module_init GUILD_ID (boot d)) in
  let m1 := migrated_value <$> m in
  fst (module_init GUILD_ID (boot d)) = Ok tt /\
  llm_choices w'
  = match m1 !! pretty GUILD_ID with
    | Some _ => m1
    | None => <[pretty GUILD_ID := default_record]> m1
    end /\
  disk w'
  = (if existsb (fun item => isinstance_str (snd item)) (map_to_list m)
     then Some (Document (PDict m1)) else d) /\
  outbox w' = [].
Proof.
  intros d w' m1. subst w'.
  pose proof (migrate_store (World m d [] [])) as Hstore.
  pose proof (migrate_flag (World m d [] [])) as Hflag.
  pose proof (Hframe := migrate_loop_frame
                (map_to_list m) false (World m d [] [])).
  rewrite migrate_unfold in Hstore, Hflag. simpl in Hstore, Hflag.
  injection Hflag as Hflag.
  unfold module_init, bind, load, boot. simpl.
  change (set_llm_choices m (World ∅ d [] [])) with (World m d [] []).
  rewrite migrate_unfold. simpl. rewrite Hflag.
  set (r := foldl migrate_item (false, World m d [] []) (map_to_list m)) in *.
  destruct Hframe as [Hdisk Hout]. simpl in Hdisk, Hout.
  fold m1 in Hstore.
  destruct (existsb (fun item => isinstance_str (snd item)) (map_to_list m));
    unfold save_llm_choices, modify, gets, store_entry, ret; simpl;
    rewrite Hstore;
    destruct (m1 !! pretty GUILD_ID); simpl;
    rewrite ?Hstore, ?Hdisk, ?Hout; repeat split; reflexivity.
Qed.

(** X5.  After the import of a file that holds a JSON object, no entry of the
    store is a bare string, the default guild has an entry, and every
    guild of the file has its entry, migrated if it was a bare string and
    as it was otherwise: an entry of the default guild is never replaced by
    the default. *)
Theorem module_init_store (GUILD_ID : Z) (m : gmap string pyval) :
  let w' := snd (module_init GUILD_ID (boot (Some (Document (PDict m))))) in
  (forall g v, llm_choices w' !! g = Some v -> isinstance_str v = false) /\
  is_Some (llm_choices w' !! pretty GUILD_ID) /\
  (forall g v, m !! g = Some v ->
               llm_choices w' !! g = Some (migrated_value v)) /\
  (forall g, m !! g = None -> g <> pretty GUILD_ID ->
             llm_choices w' !! g = None).
Proof.
  intros w'. subst w'.
  destruct (module_init_object GUILD_ID m) as (_ & Hstore & _ & _).
  rewrite Hstore. clear Hstore.
  destruct ((migrated_value <$> m) !! pretty GUILD_ID) as [x|] eqn:Hg.
  - split; [|split; [|split]].
    + intros g v Hv. rewrite lookup_fmap in Hv.
      destruct (m !! g); [|discriminate]. injection Hv as <-.
      apply isinstance_str_migrated.
    + rewrite Hg. eauto.
    + intros g v Hv. rewrite lookup_fmap, Hv. reflexivity.
    + intros g Hv _. rewrite lookup_fmap, Hv. reflexivity.
  - split; [|split; [|split]].
    + intros g v Hv. destruct (decide (g = pretty GUILD_ID)) as [->|Hne].
      * rewrite lookup_insert_eq in Hv. injection Hv as <-. reflexivity.
      * rewrite lookup_insert_ne in Hv by congruence.
        rewrite lookup_fmap in Hv.
        destruct (m !! g); [|discriminate]. injection Hv as <-.
        apply isinstance_str_migrated.
    + rewrite lookup_insert_eq. eauto.
    + intros g v Hv.
      assert (g <> pretty GUILD_ID).
      { intros ->. rewrite lookup_fmap, Hv in Hg. discriminate. }
      rewrite lookup_insert_ne by congruence.
      rewrite lookup_fmap, Hv. reflexivity.
    + intros g Hv Hne. rewrite lookup_insert_ne by congruence.
      rewrite lookup_fmap, Hv. reflexivity.
Qed.

(** X6.  The import rewrites the file only when it migrated an entry: without
    a bare string in the file, the file is left as it was found; with one,
    the file holds the migrated entries, and it agrees with the store
    exactly when the default guild was in the file. *)
Theorem module_init_file (GUILD_ID : Z) (m : gmap string pyval) :
  let d := Some (Document (PDict m)) in
  let w' := snd (module_init GUILD_ID (boot d)) in
  ((forall g v, m !! g = Some v -> isinstance_str v = false) ->
   disk w' = d) /\
  (forall g S, m !! g = Some (PStr S) ->
     disk w' = Some (Document (PDict (migrated_value <$> m))) /\
     (persisted w' <-> is_Some (m !! pretty GUILD_ID))).
Proof.
  intros d w'. subst w'.
  destruct (module_init_object GUILD_ID m) as (_ & Hstore & Hdisk & _).
  fold d in Hstore, Hdisk. split.
  - intros Hnone. rewrite Hdisk.
    destruct (existsb _ (map_to_list m)) eqn:Hex; [|reflexivity].
    apply existsb_exists in Hex. destruct Hex as ([g v] & Hin & Hstr).
    apply list_elem_of_In, elem_of_map_to_list in Hin.
    simpl in Hstr. rewrite (Hnone g v Hin) in Hstr. discriminate.
  - intros g S Hg.
    assert (Hex : existsb (fun item => isinstance_str (snd item))
                    (map_to_list m) = true).
    { apply existsb_exists. exists (g, PStr S). split; [|reflexivity].
      apply list_elem_of_In, elem_of_map_to_list. exact Hg. }
    rewrite Hex in Hdisk. split; [exact Hdisk|].
    unfold persisted. rewrite Hdisk, Hstore.
    rewrite lookup_fmap.
    destruct (m !! pretty GUILD_ID) as [x|] eqn:Hdef; simpl.
    + split; [eauto | reflexivity].
    + split.
      * intros Heq. injection Heq as Heq.
        assert (Hl : (migrated_value <$> m) !! pretty GUILD_ID
                     = Some default_record)
          by (rewrite Heq; apply lookup_insert_eq).
        rewrite lookup_fmap, Hdef in Hl. discriminate.
      * intros [? ?]. discriminate.
Qed.

Lemma module_init_file_witness :
  (<["1" := PStr "claude"]> ∅ : gmap string pyval) !! "1"
  = Some (PStr "claude") /\
  persisted
    (snd (module_init 1
            (boot (Some (Document (PDict (<["1" := PStr "claude"]> ∅))))))).
Proof.
  assert (H : (<["1" := PStr "claude"]> ∅ : gmap string pyval) !! "1"
              = Some (PStr "claude")) by (vm_compute; reflexivity).
  split; [exact H|].
  apply (proj2 (proj2 (module_init_file 1 _) "1" "claude" H)).
  exists (PStr "claude"). vm_compute. reflexivity.
Defined.

(** ** llm_set *)

(** The four cases of lines 276-291, by what the store holds for the
    guild. *)
Lemma llm_set_store_cases (guild_id model : string) (w : world) :
  llm_set_store guild_id model w
  = match llm_choices w !! guild_id with
    | None => (Raise (KeyError guild_id), w)
    | Some (PStr _) =>
        let m := <[guild_id := record (PStr model) PNone]> (llm_choices w) in
        (Ok tt,
         World m (Some (Document (PDict m)))
               (log w ++ [(INFO, migrated_within guild_id "llm-set")])
               (outbox w))
    | Some (PDict d) =>
        let m := <[guild_id :=
                     PDict (<["chatId" := PNone]> (<["model" := PStr model]> d))]>
                   (llm_choices w) in
        (Ok tt, World m (Some (Document (PDict m))) (log w) (outbox w))
    | Some _ => (Raise TypeError, w)
    end.
Proof.
  destruct (llm_choices w !! guild_id) as [v|] eqn:Hv.
  - destruct v;
      try (unfold llm_set_store, bind, gets, store_field; rewrite Hv; simpl;
           rewrite Hv; reflexivity).
    + apply (llm_set_store_legacy _ _ _ s Hv).
    + apply (llm_set_store_dict _ _ _ d Hv).
  - apply llm_set_store_absent. exact Hv.
Qed.

(** X7.  Setting the model succeeds exactly when the guild has an entry
    that is a dictionary or a bare string.  Without an entry it raises
    [KeyError] for the guild, and with an entry of another type it raises
    [TypeError]; in both cases nothing has been written. *)
Theorem llm_set_store_outcome (guild_id model : string) (w : world) :
  (fst (llm_set_store guild_id model w) = Ok tt <->
   exists v, llm_choices w !! guild_id = Some v /\
             (isinstance_str v = true \/ isinstance_dict v = true)) /\
  (fst (llm_set_store guild_id model w) <> Ok tt ->
   snd (llm_set_store guild_id model w) = w) /\
  (llm_choices w !! guild_id = None ->
   llm_set_store guild_id model w = (Raise (KeyError guild_id), w)) /\
  (forall v, llm_choices w !! guild_id = Some v ->
             isinstance_str v = false -> isinstance_dict v = false ->
             llm_set_store guild_id model w = (Raise TypeError, w)).
Proof.
  rewrite llm_set_store_cases.
  split; [|split; [|split]].
  - destruct (llm_choices w !! guild_id) as [v|]; [destruct v|]; simpl;
      split;
      try (intros H; discriminate H);
      try (intros (v & Hv & [H|H]);
           first [discriminate Hv | injection Hv as <-; discriminate H]);
      intros _; eexists; (split; [reflexivity|]);
      first [left; reflexivity | right; reflexivity].
  - destruct (llm_choices w !! guild_id) as [v|]; [destruct v|]; simpl;
      intros H; first [reflexivity | exfalso; apply H; reflexivity].
  - intros Hv. rewrite Hv. reflexivity.
  - intros v Hv Hs Hd. rewrite Hv.
    destruct v; first [reflexivity | discriminate Hs | discriminate Hd].
Qed.

Lemma llm_set_store_other (guild_id model g : string) (w : world) :
  g <> guild_id ->
  llm_choices (snd (llm_set_store guild_id model w)) !! g
  = llm_choices w !! g.
Proof.
  intros Hne. rewrite llm_set_store_cases.
  destruct (llm_choices w !! guild_id) as [v|]; [destruct v|]; simpl;
    try reflexivity; apply lookup_insert_ne; congruence.
Qed.

(** X8.  The command as a whole (lines 264-296): it never raises; it never
    touches the entry of another guild; and when the provider fails or
    does not list the model, the store and the file stay as they are and
    the answer is that the model is not valid. *)
Theorem llm_set_command_frame (guild_id model : string)
    (bots : result (list string)) (w : world) :
  let w' := snd (llm_set_command guild_id model bots w) in
  fst (llm_set_command guild_id model bots w) = Ok tt /\
  (forall g, g <> guild_id -> llm_choices w' !! g = llm_choices w !! g) /\
  ((forall models, bots = Ok models -> model ∉ models) ->
   llm_choices w' = llm_choices w /\
   disk w' = disk w /\
   outbox w' = outbox w ++ [Ack; InvalidModelNotice model]).
Proof.
  intros w'. subst w'.
  unfold llm_set_command, bind, try_except, modify, get_available_models.
  destruct bots as [models|e]; simpl.
  - destruct (bool_decide (model ∈ models)) eqn:Hin.
    + set (w0 := logging INFO "Retrieved available models successfully."
                   (send Ack w)).
      assert (Hother : forall g, g <> guild_id ->
                llm_choices (snd (llm_set_store guild_id model w0)) !! g
                = llm_choices w !! g)
        by (intros g Hne; rewrite llm_set_store_other by exact Hne;
            reflexivity).
      apply bool_decide_eq_true in Hin.
      destruct (llm_set_store guild_id model w0) as [[[]|e] w1];
        simpl in *;
        (split; [reflexivity|]; split; [exact Hother|]);
        intros Hno; exfalso; exact (Hno models eq_refl Hin).
    + simpl. split; [reflexivity|]. split; [reflexivity|].
      intros _. rewrite <- app_assoc. repeat split; reflexivity.
  - destruct (bool_decide (model ∈ [])) eqn:Hin.
    + apply bool_decide_eq_true in Hin. inversion Hin.
    + simpl. split; [reflexivity|]. split; [reflexivity|].
      intros _. rewrite <- app_assoc. repeat split; reflexivity.
Qed.

Lemma llm_set_command_frame_witness :
  (forall models : list string,
      Raise ProviderError = Ok models -> "claude" ∉ models) /\
  outbox (snd (llm_set_command "1" "claude" (Raise ProviderError) started))
  = outbox started ++ [Ack; InvalidModelNotice "claude"].
Proof.
  assert (H : forall models : list string,
             Raise ProviderError = Ok models -> "claude" ∉ models)
    by (intros models Heq; discriminate Heq).
  split; [exact H|].
  exact (proj2 (proj2 (proj2 (proj2
           (llm_set_command_frame "1" "claude" (Raise ProviderError) started))
           H))).
Defined.

(** ** reset and clear *)

(** X9.  [reset] (lines 303-327) never raises and never touches another guild.
    For a guild with a dictionary it sets [chatId] to [None], keeps the
    other fields and saves; a bare string becomes the record of that model
    with no chat; without an entry, or with an entry of another type,
    nothing is written and the answer is a notice. *)
Theorem reset_outcome (guild_id : string) (w : world) :
  let w' := snd (reset guild_id w) in
  fst (reset guild_id w) = Ok tt /\
  (forall g, g <> guild_id -> llm_choices w' !! g = llm_choices w !! g) /\
  match llm_choices w !! guild_id with
  | None =>
      llm_choices w' = llm_choices w /\ disk w' = disk w /\
      outbox w' = outbox w ++ [Ack; GuildNotFoundNotice]
  | Some (PDict d) =>
      llm_choices w' !! guild_id = Some (PDict (<["chatId" := PNone]> d)) /\
      persisted w' /\
      outbox w' = outbox w ++ [Ack; ResetDoneNotice]
  | Some (PStr s) =>
      llm_choices w' !! guild_id = Some (record (PStr s) PNone) /\
      persisted w' /\
      outbox w' = outbox w ++ [Ack; ResetDoneNotice]
  | Some _ =>
      llm_choices w' = llm_choices w /\ disk w' = disk w /\
      outbox w' = outbox w ++ [Ack; ResetErrorNotice]
  end.
Proof.
  intros w'. subst w'.
  unfold reset, bind, try_except, gets, modify. simpl.
  destruct (llm_choices w !! guild_id) as [v|] eqn:Hv; [destruct v|]; simpl;
    unfold store_field, store_entry, modify; simpl;
    rewrite ?Hv, ?lookup_insert_eq; simpl;
    rewrite <- ?app_assoc; simpl;
    (split; [reflexivity|]; split;
     [intros g Hne; rewrite ?lookup_insert_ne by congruence; reflexivity|]);
    rewrite ?lookup_insert_eq, ?insert_insert_eq;
    repeat split; reflexivity.
Qed.

(** X10.  [clear] (lines 394-426) never raises, and it writes only after the
    provider has broken the chat: either the store and the file are as
    they were, or [chat_break] succeeded for a dictionary with a model and
    an open chat, whose [chatId] is then [None], saved, and confirmed. *)
Theorem clear_outcome (guild_id : string) (chat_break : result unit)
    (w : world) :
  let w' := snd (clear guild_id chat_break w) in
  fst (clear guild_id chat_break w) = Ok tt /\
  ((llm_choices w' = llm_choices w /\ disk w' = disk w) \/
   (exists d chat_id,
      chat_break = Ok tt /\
      llm_choices w !! guild_id = Some (PDict d) /\
      is_Some (d !! "model") /\
      d !! "chatId" = Some chat_id /\ truthy chat_id = true /\
      llm_choices w'
      = <[guild_id := PDict (<["chatId" := PNone]> d)]> (llm_choices w) /\
      persisted w' /\
      outbox w' = outbox w ++ [Ack; ClearedNotice])).
Proof.
  intros w'. subst w'.
  unfold clear, bind, try_except, gets, modify. simpl.
  destruct (llm_choices w !! guild_id) as [v|] eqn:Hv;
    [destruct v|]; simpl;
    try (split; [reflexivity | left; split; reflexivity]).
  - destruct (b); simpl; split; try reflexivity; left; split; reflexivity.
  - destruct (negb (n =? 0)%Z); simpl; split; try reflexivity;
      left; split; reflexivity.
  - destruct (negb (len s =? 0)); simpl; split; try reflexivity;
      left; split; reflexivity.
  - destruct (negb (length l =? 0)); simpl; split; try reflexivity;
      left; split; reflexivity.
  - destruct (negb (size d =? 0)); simpl;
      [| split; [reflexivity | left; split; reflexivity]].
    unfold getitem.
    destruct (d !! "model") as [model|] eqn:Hmodel; simpl;
      [| split; [reflexivity | left; split; reflexivity]].
    destruct (d !! "chatId") as [chat_id|] eqn:Hchat; simpl;
      [| split; [reflexivity | left; split; reflexivity]].
    destruct (truthy chat_id) eqn:Htruthy; simpl;
      [| split; [reflexivity | left; split; reflexivity]].
    destruct chat_break as [[]|e]; simpl;
      [| split; [reflexivity | left; split; reflexivity]].
    unfold store_field. simpl. rewrite Hv. simpl.
    split; [reflexivity|]. right. exists d, chat_id.
    rewrite <- app_assoc. repeat split; eauto.
Qed.

Lemma truthy_dict_lookup (d : gmap string pyval) (k : string) (v : pyval) :
  d !! k = Some v -> truthy (PDict d) = true.
Proof.
  intros Hk. simpl. destruct (size d =? 0) eqn:Hsize; [|reflexivity].
  apply Nat.eqb_eq, map_size_empty_iff in Hsize. subst d.
  rewrite lookup_empty in Hk. discriminate.
Qed.

(** X11.  For a guild whose record has a model and an open chat: when the
    provider breaks the chat, [chatId] becomes [None], the rest of the
    record stays and the store is saved; when the provider fails, the chat
    id stays in the store and in the file, so the next prompt goes on in
    the same chat. *)
Theorem clear_open_chat (guild_id : string) (chat_break : result unit)
    (w : world) (d : gmap string pyval) (chat_id : pyval) :
  llm_choices w !! guild_id = Some (PDict d) ->
  is_Some (d !! "model") ->
  d !! "chatId" = Some chat_id ->
  truthy chat_id = true ->
  let w' := snd (clear guild_id chat_break w) in
  match chat_break with
  | Ok _ =>
      llm_choices w'
      = <[guild_id := PDict (<["chatId" := PNone]> d)]> (llm_choices w) /\
      persisted w' /\
      outbox w' = outbox w ++ [Ack; ClearedNotice]
  | Raise _ =>
      llm_choices w' = llm_choices w /\ disk w' = disk w /\
      outbox w' = outbox w ++ [Ack; ClearErrorNotice]
  end.
Proof.
  intros Hv [model Hmodel] Hchat Htruthy w'. subst w'.
  pose proof (truthy_dict_lookup d _ _ Hchat) as Hd. simpl in Hd.
  unfold clear, bind, try_except, gets, modify. simpl.
  rewrite Hv. simpl. rewrite Hd. simpl.
  unfold getitem. rewrite Hmodel. simpl. rewrite Hchat. simpl.
  rewrite Htruthy. simpl.
  destruct chat_break as [[]|e]; simpl.
  - unfold store_field. simpl. rewrite Hv. simpl.
    rewrite <- app_assoc. repeat split; reflexivity.
  - rewrite <- app_assoc. repeat split; reflexivity.
Qed.

Lemma clear_open_chat_witness :
  llm_choices open_chat_world !! "7"
  = Some (record (PStr "claude") (PStr "c9")) /\
  llm_choices (snd (clear "7" (Raise ProviderError) open_chat_world))
  = llm_choices open_chat_world /\
  llm_choices (snd (clear "7" (Ok tt) open_chat_world)) !! "7"
  = Some (record (PStr "claude") PNone).
Proof.
  assert (H : llm_choices open_chat_world !! "7"
              = Some (record (PStr "claude") (PStr "c9")))
    by (vm_compute; reflexivity).
  assert (Hm : is_Some ((<["chatId" := PStr "c9"]>
                           (<["model" := PStr "claude"]> ∅)
                         : gmap string pyval) !! "model"))
    by (exists (PStr "claude"); vm_compute; reflexivity).
  assert (Hc : (<["chatId" := PStr "c9"]> (<["model" := PStr "claude"]> ∅)
                : gmap string pyval) !! "chatId" = Some (PStr "c9"))
    by (vm_compute; reflexivity).
  split; [exact H|]. split.
  - exact (proj1 (clear_open_chat "7" (Raise ProviderError) open_chat_world
                    _ (PStr "c9") H Hm Hc eq_refl)).
  - rewrite (proj1 (clear_open_chat "7" (Ok tt) open_chat_world
                      _ (PStr "c9") H Hm Hc eq_refl)).
    vm_compute. reflexivity.
Defined.

(** ** Reading the entry of a guild (askpoe and info) *)


(** ** Gathering the reply (askpoe, lines 162-175) *)

Lemma askpoe_item_accepted (guild_id response : string) (item : pyval)
    (d : gmap string pyval) (w : world) :
  llm_choices w !! guild_id = Some (PDict d) ->
  item_accepted item = true ->
  askpoe_item guild_id response item w
  = (Ok (response +:+ item_text item),
     match item_chat_id item with
     | Some v => with_chat_id guild_id d v w
     | None => w
     end).
Proof.
  intros Hd Hacc.
  destruct item as [| | | |l|c]; simpl;
    try (unfold ret; rewrite append_empty_r; reflexivity).
  simpl in Hacc. unfold bind.
  assert (Hfirst :
    (if truthy (default (PStr "") (c !! "response"))
     then match default (PStr "") (c !! "response") with
          | PStr s => ret (response +:+ s)
          | _ => raise TypeError
          end
     else ret response) w
    = (Ok (response +:+ match c !! "response" with
                        | Some (PStr s) => s
                        | _ => ""
                        end), w)).
  { destruct (c !! "response") as [v|]; simpl;
      [| unfold ret; rewrite append_empty_r; reflexivity].
    destruct v; simpl in *;
      try (apply negb_true_iff in Hacc; rewrite Hacc; unfold ret;
           rewrite append_empty_r; reflexivity).
    - unfold ret. rewrite append_empty_r. reflexivity.
    - destruct (len s =? 0) eqn:Hs; simpl; [|reflexivity].
      apply Nat.eqb_eq, len_empty in Hs. subst s.
      unfold ret. rewrite append_empty_r. reflexivity. }
  rewrite Hfirst. clear Hfirst.
  destruct (c !! "chatId") as [v|]; simpl; [|reflexivity].
  destruct (truthy v); simpl; [|reflexivity].
  rewrite (store_field_dict _ _ _ _ d) by exact Hd. reflexivity.
Qed.

Lemma with_chat_id_twice (guild_id : string) (d : gmap string pyval)
    (v v' : pyval) (w : world) :
  with_chat_id guild_id (<["chatId" := v]> d) v' (with_chat_id guild_id d v w)
  = with_chat_id guild_id d v' w.
Proof.
  unfold with_chat_id. simpl. rewrite !insert_insert_eq. reflexivity.
Qed.

(** X13.  For a guild whose entry is a dictionary and a stream whose items do
    not make the concatenation raise, the reply gathered is the texts of
    the items in the order they were yielded (items that are not
    dictionaries or carry no text add nothing), and the chat id kept in the
    store and the file is the one of the last item that carried one; with
    no such item nothing is written. *)
Theorem askpoe_stream_gathers (guild_id : string) (items : list pyval) :
  forall (d : gmap string pyval) (response : string) (w : world),
    llm_choices w !! guild_id = Some (PDict d) ->
    forallb item_accepted items = true ->
    askpoe_stream guild_id response items w
    = (Ok (response +:+ concat_str (map item_text items)),
       match last_chat_id items with
       | Some v => with_chat_id guild_id d v w
       | None => w
       end).
Proof.
  induction items as [|item rest IH]; intros d response w Hd Hacc.
  - simpl. unfold ret. rewrite append_empty_r. reflexivity.
  - simpl in Hacc. apply andb_true_iff in Hacc. destruct Hacc as [Hitem Hrest].
    change (askpoe_stream guild_id response (item :: rest))
      with (bind (askpoe_item guild_id response item)
              (fun r => askpoe_stream guild_id r rest)).
    change (map item_text (item :: rest))
      with (item_text item :: map item_text rest).
    change (last_chat_id (item :: rest))
      with (match last_chat_id rest with
            | Some v => Some v
            | None => item_chat_id item
            end).
    unfold bind.
    rewrite (askpoe_item_accepted _ _ _ d) by assumption.
    rewrite concat_str_cons, <- append_assoc.
    destruct (item_chat_id item) as [v|].
    + rewrite (IH (<["chatId" := v]> d)) by
        (try exact Hrest; unfold with_chat_id; simpl; apply lookup_insert_eq).
      destruct (last_chat_id rest) as [v'|]; [|reflexivity].
      rewrite with_chat_id_twice. reflexivity.
    + rewrite (IH d) by assumption.
      destruct (last_chat_id rest); reflexivity.
Qed.

Lemma askpoe_stream_gathers_witness :
  llm_choices started !! "1" = Some default_record /\
  askpoe_stream "1" "" [first_item; PNone; first_item] started
  = (Ok "Paris.Paris.",
     with_chat_id "1" (<["chatId" := PNone]> (<["model" := PStr "gpt3_5"]> ∅))
       (PStr "c1") started).
Proof.
  assert (H : llm_choices started !! "1" = Some default_record)
    by (vm_compute; reflexivity).
  split; [exact H|].
  exact (askpoe_stream_gathers "1" [first_item; PNone; first_item]
           _ "" started H eq_refl).
Defined.

(** X14.  An item whose text is not a string (and is not false) stops the loop
    with [TypeError] at line 168; what the items before it stored stays
    stored. *)
Theorem askpoe_stream_type_error (guild_id : string) (before after : list pyval)
    (c d : gmap string pyval) (v : pyval) (response : string) (w : world) :
  llm_choices w !! guild_id = Some (PDict d) ->
  forallb item_accepted before = true ->
  c !! "response" = Some v ->
  isinstance_str v = false ->
  truthy v = true ->
  askpoe_stream guild_id response (before ++ PDict c :: after) w
  = (Raise TypeError,
     match last_chat_id before with
     | Some x => with_chat_id guild_id d x w
     | None => w
     end).
Proof.
  revert d response w.
  induction before as [|item rest IH]; intros d response w Hd Hacc Hc Hv Ht.
  - simpl. unfold bind, askpoe_item, bind. rewrite Hc. simpl. rewrite Ht.
    destruct v; try reflexivity. discriminate.
  - simpl in Hacc. apply andb_true_iff in Hacc. destruct Hacc as [Hitem Hrest].
    change (askpoe_stream guild_id response ((item :: rest) ++ PDict c :: after))
      with (bind (askpoe_item guild_id response item)
              (fun r => askpoe_stream guild_id r (rest ++ PDict c :: after))).
    change (last_chat_id (item :: rest))
      with (match last_chat_id rest with
            | Some v => Some v
            | None => item_chat_id item
            end).
    unfold bind.
    rewrite (askpoe_item_accepted _ _ _ d) by assumption.
    destruct (item_chat_id item) as [x|].
    + rewrite (IH (<["chatId" := x]> d)) by
        (try assumption; unfold with_chat_id; simpl; apply lookup_insert_eq).
      destruct (last_chat_id rest) as [x'|]; [|reflexivity].
      rewrite with_chat_id_twice. reflexivity.
    + rewrite (IH d) by assumption.
      destruct (last_chat_id rest); reflexivity.
Qed.

Lemma askpoe_stream_type_error_witness :
  llm_choices started !! "1" = Some default_record /\
  askpoe_stream "1" ""
    ([first_item] ++ PDict (<["response" := PInt 5]> ∅) :: []) started
  = (Raise TypeError,
     with_chat_id "1" (<["chatId" := PNone]> (<["model" := PStr "gpt3_5"]> ∅))
       (PStr "c1") started).
Proof.
  assert (H : llm_choices started !! "1" = Some default_record)
    by (vm_compute; reflexivity).
  split; [exact H|].
  apply (askpoe_stream_type_error "1" [first_item] []
           (<["response" := PInt 5]> ∅) _ (PInt 5) "" started H);
    vm_compute; reflexivity.
Defined.

(** ** askpoe as a whole *)

Section Outbox.

Context {A B : Type}.

Lemma keeps_outbox_ret (a : A) : keeps_outbox (ret a).
Proof. intros w. reflexivity. Qed.

Lemma keeps_outbox_raise (e : exn) : keeps_outbox (@raise A e).
Proof. intros w. reflexivity. Qed.

Lemma keeps_outbox_gets (f : world -> A) : keeps_outbox (gets f).
Proof. intros w. reflexivity. Qed.

Lemma keeps_outbox_bind (c : M A) (k : A -> M B) :
  keeps_outbox c -> (forall a, keeps_outbox (k a)) -> keeps_outbox (bind c k).
Proof.
  intros Hc Hk w. unfold bind. specialize (Hc w).
  destruct (c w) as [[a|e] w']; simpl in *; [rewrite Hk|]; exact Hc.
Qed.

End Outbox.

Lemma keeps_outbox_store_field (guild_id field : string) (v : pyval) :
  keeps_outbox (store_field guild_id field v).
Proof.
  intros w. unfold store_field.
  destruct (llm_choices w !! guild_id) as [[]|]; reflexivity.
Qed.

Lemma keeps_outbox_getitem (v : pyval) (key : string) :
  keeps_outbox (getitem v key).
Proof.
  destruct v; try apply keeps_outbox_raise. simpl.
  destruct (d !! key); [apply keeps_outbox_ret | apply keeps_outbox_raise].
Qed.

Lemma keeps_outbox_dict_get (v : pyval) (key : string) :
  keeps_outbox (dict_get v key).
Proof. destruct v; try apply keeps_outbox_raise. apply keeps_outbox_ret. Qed.

Lemma keeps_outbox_get_model_info (command guild_id : string) :
  keeps_outbox (get_model_info command guild_id).
Proof.
  intros w. unfold get_model_info, bind, gets. simpl.
  destruct (isinstance_str (default default_record (llm_choices w !! guild_id)));
    reflexivity.
Qed.

Lemma keeps_outbox_askpoe_item (guild_id response : string) (item : pyval) :
  keeps_outbox (askpoe_item guild_id response item).
Proof.
  destruct item; try apply keeps_outbox_ret. simpl.
  apply keeps_outbox_bind.
  - destruct (truthy (default (PStr "") (d !! "response")));
      [|apply keeps_outbox_ret].
    destruct (default (PStr "") (d !! "response"));
      first [apply keeps_outbox_ret | apply keeps_outbox_raise].
  - intros r. apply keeps_outbox_bind; [|intros _; apply keeps_outbox_ret].
    destruct (truthy (default PNone (d !! "chatId")));
      [|apply keeps_outbox_ret].
    apply keeps_outbox_bind; [apply keeps_outbox_store_field|].
    intros _ w. reflexivity.
Qed.

Lemma keeps_outbox_askpoe_stream (guild_id : string) (items : list pyval) :
  forall response, keeps_outbox (askpoe_stream guild_id response items).
Proof.
  induction items as [|item rest IH]; intros response;
    [apply keeps_outbox_ret|].
  simpl. apply keeps_outbox_bind;
    [apply keeps_outbox_askpoe_item | intros r; apply IH].
Qed.

(** X15.  [askpoe] (lines 138-214) never raises, whatever the store holds
    and whatever the provider yields, and the user always gets an answer:
    after the acknowledgement at least one more message is sent. *)
Theorem askpoe_always_answers (py_str : pyval -> string)
    (guild_id display_name prompt : string) (stream : list pyval)
    (w : world) :
  fst (askpoe py_str guild_id display_name prompt stream w) = Ok tt /\
  exists sent : list outgoing,
    sent <> [] /\
    outbox (snd (askpoe py_str guild_id display_name prompt stream w))
    = outbox w ++ Ack :: sent.
Proof.
  unfold askpoe.
  set (body :=
         (model_info <- get_model_info "askpoe" guild_id ;;
          bot_handle <- getitem model_info "model" ;;
          chat_id <- dict_get model_info "chatId" ;;
          response <- askpoe_stream guild_id "" stream ;;
          askpoe_reply (askpoe_prefix py_str display_name prompt bot_handle)
            response)).
  assert (Hbody : forall w0,
             match body w0 with
             | (Ok _, w1) =>
                 exists sent, sent <> [] /\ outbox w1 = outbox w0 ++ sent
             | (Raise _, w1) => outbox w1 = outbox w0
             end).
  { intros w0. unfold body, bind.
    pose proof (keeps_outbox_get_model_info "askpoe" guild_id w0) as H1.
    destruct (get_model_info "askpoe" guild_id w0) as [[model_info|e] w1];
      simpl in H1; [|exact H1].
    pose proof (keeps_outbox_getitem model_info "model" w1) as H2.
    destruct (getitem model_info "model" w1) as [[bot_handle|e] w2];
      simpl in H2; [|congruence].
    pose proof (keeps_outbox_dict_get model_info "chatId" w2) as H3.
    destruct (dict_get model_info "chatId" w2) as [[chat_id|e] w3];
      simpl in H3; [|congruence].
    pose proof (keeps_outbox_askpoe_stream guild_id stream "" w3) as H4.
    destruct (askpoe_stream guild_id "" stream w3) as [[response|e] w4];
      simpl in H4; [|congruence].
    destruct (askpoe_reply_answers
                (askpoe_prefix py_str display_name prompt bot_handle)
                response w4) as (sent & Hne & Hrun).
    rewrite Hrun. exists sent. split; [exact Hne|]. simpl. congruence. }
  unfold bind, modify, try_except. cbv beta.
  specialize (Hbody (send Ack w)).
  destruct (body (send Ack w)) as [[[]|e] w1].
  - destruct Hbody as (sent & Hne & Hout). split; [reflexivity|].
    exists sent. split; [exact Hne|]. simpl. rewrite Hout. simpl.
    rewrite <- app_assoc. reflexivity.
  - destruct e; simpl; (split; [reflexivity|]);
      eexists [_]; (split; [discriminate|]);
      rewrite Hbody; simpl; rewrite <- app_assoc; reflexivity.
Qed.

(** The loop over a stream of accepted items, for the handler as a
    whole. *)
Lemma askpoe_stream_run (guild_id : string) (items : list pyval) :
  forall (d : gmap string pyval) (response : string) (w : world),
    llm_choices w !! guild_id = Some (PDict d) ->
    forallb item_accepted items = true ->
    askpoe_stream guild_id response items w
    = (Ok (response +:+ concat_str (map item_text items)),
       match last_chat_id items with
       | Some v => with_chat_id guild_id d v w
       | None => w
       end).
Proof.
  induction items as [|item rest IH]; intros d response w Hd Hacc.
  - simpl. unfold ret. rewrite append_empty_r. reflexivity.
  - apply andb_true_iff in Hacc. destruct Hacc as [Hitem Hrest].
    change (askpoe_stream guild_id response (item :: rest))
      with (bind (askpoe_item guild_id response item)
              (fun r => askpoe_stream guild_id r rest)).
    change (map item_text (item :: rest))
      with (item_text item :: map item_text rest).
    change (last_chat_id (item :: rest))
      with (match last_chat_id rest with
            | Some v => Some v
            | None => item_chat_id item
            end).
    unfold bind.
    rewrite (askpoe_item_accepted _ _ _ d) by assumption.
    rewrite concat_str_cons, <- append_assoc.
    destruct (item_chat_id item) as [v|].
    + rewrite (IH (<["chatId" := v]> d)) by
        (try exact Hrest; unfold with_chat_id; simpl; apply lookup_insert_eq).
      destruct (last_chat_id rest) as [v'|]; [|reflexivity].
      rewrite with_chat_id_twice. reflexivity.
    + rewrite (IH d) by assumption.
      destruct (last_chat_id rest); reflexivity.
Qed.

(** X16.  [askpoe] from end to end, for a guild whose record names its
    model and a stream that does not make the concatenation raise: it does
    not raise; the record keeps the chat id of the last item that carried
    one, and then the store is saved, while without such an item the store
    and the file are as they were; and after the acknowledgement the user
    gets the label made of the name, the prompt and the model, followed by
    the texts of the items in order: the no-response notice when there is
    no text, the too-long notice when the label leaves no room, and
    otherwise the whole text in messages of 1 to 2000 characters. *)
Theorem askpoe_delivers (py_str : pyval -> string)
    (guild_id display_name prompt model : string) (stream : list pyval)
    (d : gmap string pyval) (w : world) :
  llm_choices w !! guild_id = Some (PDict d) ->
  d !! "model" = Some (PStr model) ->
  forallb item_accepted stream = true ->
  let response := concat_str (map item_text stream) in
  let prefix :=
    "**" +:+ display_name +:+ ":** " +:+ prompt +:+ newline
      +:+ "**" +:+ model +:+ ":** " in
  let w' := snd (askpoe py_str guild_id display_name prompt stream w) in
  fst (askpoe py_str guild_id display_name prompt stream w) = Ok tt /\
  match last_chat_id stream with
  | Some v =>
      llm_choices w'
      = <[guild_id := PDict (<["chatId" := v]> d)]> (llm_choices w) /\
      persisted w'
  | None => llm_choices w' = llm_choices w /\ disk w' = disk w
  end /\
  exists sent : list outgoing,
    outbox w' = outbox w ++ Ack :: sent /\
    (response = "" -> sent = [NoResponseNotice]) /\
    (response <> "" -> MESSAGE_LIMIT <= len prefix -> sent = [TooLongNotice]) /\
    (response <> "" -> len prefix < MESSAGE_LIMIT ->
     exists messages,
       sent = map Content messages /\
       concat_str messages = prefix +:+ response /\
       Forall (fun m => 0 < len m <= MESSAGE_LIMIT) messages).
Proof.
  intros Hd Hmodel Hacc response prefix w'. subst w'.
  assert (Hinfo : get_model_info "askpoe" guild_id (send Ack w)
                  = (Ok (PDict d), send Ack w)).
  { unfold get_model_info, bind, gets.
    change (llm_choices (send Ack w)) with (llm_choices w).
    rewrite Hd. reflexivity. }
  assert (Hitem : getitem (PDict d) "model" (send Ack w)
                  = (Ok (PStr model), send Ack w)).
  { unfold getitem. rewrite Hmodel. reflexivity. }
  destruct (askpoe_reply_run prefix response
              (match last_chat_id stream with
               | Some v => with_chat_id guild_id d v (send Ack w)
               | None => send Ack w
               end)) as (sent & Hrun & Hempty & Hlong & Hsplit).
  assert (Hwhole :
    askpoe py_str guild_id display_name prompt stream w
    = askpoe_reply prefix response
        (match last_chat_id stream with
         | Some v => with_chat_id guild_id d v (send Ack w)
         | None => send Ack w
         end)).
  { unfold askpoe, bind, try_except, modify. cbv beta.
    rewrite Hinfo, Hitem.
    change (dict_get (PDict d) "chatId" (send Ack w))
      with (Ok (default PNone (d !! "chatId")), send Ack w).
    cbv iota beta.
    rewrite (askpoe_stream_run guild_id stream d "" (send Ack w) Hd Hacc).
    rewrite append_nil_l.
    change (askpoe_prefix py_str display_name prompt (PStr model)) with prefix.
    fold response. rewrite Hrun. reflexivity. }
  rewrite Hwhole, Hrun. cbn [fst snd].
  split; [reflexivity|]. split.
  - destruct (last_chat_id stream); split; reflexivity.
  - exists sent. split.
    + destruct (last_chat_id stream); simpl; rewrite <- app_assoc; reflexivity.
    + split; [exact Hempty|]. split; [exact Hlong|].
      intros H1 H2. destruct (Hsplit H1 H2) as (messages & ? & ? & ? & ?).
      exists messages. repeat split; assumption.
Qed.

Lemma askpoe_delivers_witness :
  llm_choices started !! "1" = Some default_record /\
  fst (askpoe (fun _ => "") "1" "bob" "hi" [first_item] started) = Ok tt /\
  persisted (snd (askpoe (fun _ => "") "1" "bob" "hi" [first_item] started)).
Proof.
  assert (H : llm_choices started !! "1" = Some default_record)
    by (vm_compute; reflexivity).
  split; [exact H|].
  destruct (askpoe_delivers (fun _ => "") "1" "bob" "hi" "gpt3_5" [first_item]
              _ started H eq_refl eq_refl) as (Hok & Hstore & _).
  split; [exact Hok | exact (proj2 Hstore)].
Defined.

(** ** How the commands compose *)

(** X17.  After a model change that succeeded there is no chat to clear:
    [clear] answers that no thread is active, whatever the provider would
    have done, and writes nothing. *)
Theorem llm_set_then_clear (guild_id model : string)
    (chat_break : result unit) (w : world) :
  fst (llm_set_store guild_id model w) = Ok tt ->
  clear guild_id chat_break (snd (llm_set_store guild_id model w))
  = (Ok tt,
     send NoThreadNotice (send Ack (snd (llm_set_store guild_id model w)))).
Proof.
  rewrite llm_set_store_cases.
  destruct (llm_choices w !! guild_id) as [v|]; [destruct v|]; simpl;
    try discriminate; intros _.
  - unfold clear, bind, try_except, gets, modify. simpl.
    rewrite lookup_insert_eq. reflexivity.
  - unfold clear, bind, try_except, gets, modify. simpl.
    rewrite lookup_insert_eq. simpl.
    assert (Ht : negb (size (<["chatId" := PNone]>
                               (<["model" := PStr model]> d)) =? 0) = true).
    { apply (truthy_dict_lookup _ "chatId" PNone). apply lookup_insert_eq. }
    rewrite Ht. simpl. unfold getitem.
    rewrite lookup_insert_ne by discriminate.
    rewrite !lookup_insert_eq. reflexivity.
Qed.

Lemma llm_set_then_clear_witness :
  fst (llm_set_store "7" "gpt4" open_chat_world) = Ok tt /\
  clear "7" (Ok tt) (snd (llm_set_store "7" "gpt4" open_chat_world))
  = (Ok tt,
     send NoThreadNotice
       (send Ack (snd (llm_set_store "7" "gpt4" open_chat_world)))).
Proof.
  assert (H : fst (llm_set_store "7" "gpt4" open_chat_world) = Ok tt)
    by (vm_compute; reflexivity).
  split; [exact H | exact (llm_set_then_clear "7" "gpt4" (Ok tt) _ H)].
Defined.

(** X18.  A chat id stored by [askpoe] and then a [reset]: the record of the
    guild is the one from before the prompt with [chatId] set to [None];
    it is the very record from before when that had no chat. *)
Theorem chat_id_then_reset (guild_id : string) (d : gmap string pyval)
    (v : pyval) (w : world) :
  llm_choices w !! guild_id = Some (PDict d) ->
  llm_choices (snd (reset guild_id (with_chat_id guild_id d v w))) !! guild_id
  = Some (PDict (<["chatId" := PNone]> d)) /\
  (d !! "chatId" = Some PNone ->
   llm_choices (snd (reset guild_id (with_chat_id guild_id d v w)))
   = llm_choices w).
Proof.
  intros Hd.
  assert (Hrun : llm_choices (snd (reset guild_id (with_chat_id guild_id d v w)))
                 = <[guild_id := PDict (<["chatId" := PNone]> d)]> (llm_choices w)).
  { unfold reset, bind, try_except, gets, modify, with_chat_id. simpl.
    rewrite lookup_insert_eq. simpl.
    unfold store_field. simpl. rewrite lookup_insert_eq. simpl.
    rewrite !insert_insert_eq. reflexivity. }
  rewrite Hrun. split; [apply lookup_insert_eq|].
  intros Hnone. rewrite (insert_id d "chatId" PNone) by exact Hnone.
  apply insert_id. exact Hd.
Qed.

Lemma chat_id_then_reset_witness :
  llm_choices started !! "1" = Some default_record /\
  llm_choices
    (snd (reset "1"
            (with_chat_id "1"
               (<["chatId" := PNone]> (<["model" := PStr "gpt3_5"]> ∅))
               (PStr "c1") started)))
  = llm_choices started.
Proof.
  assert (H : llm_choices started !! "1" = Some default_record)
    by (vm_compute; reflexivity).
  split; [exact H|].
  apply (proj2 (chat_id_then_reset "1" _ (PStr "c1") started H)).
  vm_compute. reflexivity.
Defined.

(** X19.  After the import of a file that holds a JSON object, reading the entry
    of any guild writes nothing: the migration inside the handlers has
    nothing left to do. *)
Theorem module_init_then_get_model_info (GUILD_ID : Z)
    (m : gmap string pyval) (command guild_id : string) :
  let w' := snd (module_init GUILD_ID (boot (Some (Document (PDict m))))) in
  snd (get_model_info command guild_id w') = w'.
Proof.
  intros w'.
  assert (Hnostr : forall v, llm_choices w' !! guild_id = Some v ->
                             isinstance_str v = false).
  { subst w'. destruct (module_init_object GUILD_ID m) as (_ & Hstore & _).
    rewrite Hstore. intros v Hv.
    assert (Hm : forall x, (migrated_value <$> m) !! guild_id = Some x ->
                           isinstance_str x = false).
    { intros x Hx. rewrite lookup_fmap in Hx.
      destruct (m !! guild_id); [|discriminate]. injection Hx as <-.
      apply isinstance_str_migrated. }
    destruct ((migrated_value <$> m) !! pretty GUILD_ID); [exact (Hm v Hv)|].
    destruct (decide (guild_id = pretty GUILD_ID)) as [->|Hne].
    - rewrite lookup_insert_eq in Hv. injection Hv as <-. reflexivity.
    - rewrite lookup_insert_ne in Hv by congruence. exact (Hm v Hv). }
  unfold get_model_info, bind, gets.
  destruct (llm_choices w' !! guild_id) as [v|] eqn:Hv; [|reflexivity].
  simpl. rewrite (Hnostr v eq_refl). reflexivity.
Qed.

(** An instance of the invariant of the handlers: the world after import
    and a save, then a command. *)
Lemma handlers_keep_persisted_witness :
  persisted (snd (save_llm_choices started)) /\
  persisted (snd (reset "1" (snd (save_llm_choices started)))) /\
  persisted (snd (clear "1" (Ok tt) (snd (save_llm_choices started)))).
Proof.
  assert (H : persisted (snd (save_llm_choices started))) by reflexivity.
  split; [exact H|]. split.
  - exact (proj1 (proj2 (proj2 handlers_keep_persisted)) "1" _ H).
  - exact (proj2 (proj2 (proj2 handlers_keep_persisted)) "1" (Ok tt) _ H).
Defined.

(** ** A restart *)

Lemma migrated_nothing (m : gmap string pyval) :
  (forall g v, m !! g = Some v -> isinstance_str v = false) ->
  migrated_value <$> m = m.
Proof.
  intros Hnone. apply map_eq. intros g. rewrite lookup_fmap.
  destruct (m !! g) as [v|] eqn:Hg; [|reflexivity].
  simpl. unfold migrated_value. rewrite (Hnone g v Hg). reflexivity.
Qed.

(** X21.  When the file agrees with a store that has no bare string and has an
    entry for the default guild, importing the module again gives the same
    store and leaves the file as it is: what the commands saved is what a
    restart finds. *)
Theorem restart_restores_store (GUILD_ID : Z) (w : world) :
  persisted w ->
  (forall g v, llm_choices w !! g = Some v -> isinstance_str v = false) ->
  is_Some (llm_choices w !! pretty GUILD_ID) ->
  fst (module_init GUILD_ID (boot (disk w))) = Ok tt /\
  llm_choices (snd (module_init GUILD_ID (boot (disk w)))) = llm_choices w /\
  disk (snd (module_init GUILD_ID (boot (disk w)))) = disk w.
Proof.
  intros Hp Hnone [x Hx]. unfold persisted in Hp. rewrite Hp.
  destruct (module_init_object GUILD_ID (llm_choices w))
    as (Hok & Hstore & Hdisk & _).
  split; [exact Hok|]. split.
  - rewrite Hstore, (migrated_nothing _ Hnone), Hx. reflexivity.
  - rewrite Hdisk.
    destruct (existsb _ (map_to_list (llm_choices w))) eqn:Hex; [|reflexivity].
    apply existsb_exists in Hex. destruct Hex as ([g v] & Hin & Hstr).
    apply list_elem_of_In, elem_of_map_to_list in Hin.
    simpl in Hstr. rewrite (Hnone g v Hin) in Hstr. discriminate.
Qed.

Lemma restart_restores_store_witness :
  persisted (snd (save_llm_choices chatting)) /\
  llm_choices
    (snd (module_init 1 (boot (disk (snd (save_llm_choices chatting))))))
  = llm_choices chatting.
Proof.
  assert (Hp : persisted (snd (save_llm_choices chatting))) by reflexivity.
  assert (Hnone : forall g v,
             llm_choices (snd (save_llm_choices chatting)) !! g = Some v ->
             isinstance_str v = false).
  { intros g v Hv. change (llm_choices (snd (save_llm_choices chatting)))
      with (<["1" := record (PStr "gpt3_5") (PStr "c1")]>
              (∅ : gmap string pyval)) in Hv.
    destruct (decide (g = "1")) as [->|Hne].
    - rewrite lookup_insert_eq in Hv. injection Hv as <-. reflexivity.
    - rewrite lookup_insert_ne, lookup_empty in Hv by congruence.
      discriminate. }
  assert (Hdef : is_Some (llm_choices (snd (save_llm_choices chatting))
                            !! pretty 1%Z))
    by (eexists; vm_compute; reflexivity).
  split; [exact Hp|].
  exact (proj1 (proj2 (restart_restores_store 1 _ Hp Hnone Hdef))).
Defined.

(* ===================================================================== *)
(** * Part IV: the running bot                                            *)
(* ===================================================================== *)

(** ** No key of the store is ever deleted *)

Section Keys.

Context {A B : Type}.

Lemma keeps_keys_ret (a : A) : keeps_keys (ret a).
Proof. intros w g Hg. exact Hg. Qed.

Lemma keeps_keys_raise (e : exn) : keeps_keys (@raise A e).
Proof. intros w g Hg. exact Hg. Qed.

Lemma keeps_keys_gets (f : world -> A) : keeps_keys (gets f).
Proof. intros w g Hg. exact Hg. Qed.

Lemma keeps_keys_bind (c : M A) (k : A -> M B) :
  keeps_keys c -> (forall a, keeps_keys (k a)) -> keeps_keys (bind c k).
Proof.
  intros Hc Hk w g Hg. unfold bind. specialize (Hc w g Hg).
  destruct (c w) as [[a|e] w']; simpl in *; [apply Hk|]; exact Hc.
Qed.

Lemma keeps_keys_try_except (c : M A) (h : exn -> M A) :
  keeps_keys c -> (forall e, keeps_keys (h e)) -> keeps_keys (try_except c h).
Proof.
  intros Hc Hh w g Hg. unfold try_except. specialize (Hc w g Hg).
  destruct (c w) as [[a|e] w']; simpl in *; [|apply Hh]; exact Hc.
Qed.

End Keys.

Lemma keeps_keys_send (o : outgoing) : keeps_keys (modify (send o)).
Proof. intros w g Hg. exact Hg. Qed.

Lemma keeps_keys_logging (l : level) (msg : string) :
  keeps_keys (modify (logging l msg)).
Proof. intros w g Hg. exact Hg. Qed.

Lemma keeps_keys_save : keeps_keys save_llm_choices.
Proof. intros w g Hg. exact Hg. Qed.

Lemma keeps_keys_store_entry (guild_id : string) (v : pyval) :
  keeps_keys (store_entry guild_id v).
Proof.
  intros w g Hg. simpl. destruct (decide (guild_id = g)) as [->|Hne].
  - rewrite lookup_insert_eq. eauto.
  - rewrite lookup_insert_ne by exact Hne. exact Hg.
Qed.

Lemma keeps_keys_store_field (guild_id field : string) (v : pyval) :
  keeps_keys (store_field guild_id field v).
Proof.
  intros w g Hg. unfold store_field.
  destruct (llm_choices w !! guild_id) as [[]|]; simpl; try exact Hg.
  destruct (decide (guild_id = g)) as [->|Hne].
  - rewrite lookup_insert_eq. eauto.
  - rewrite lookup_insert_ne by exact Hne. exact Hg.
Qed.

Lemma keeps_keys_getitem (v : pyval) (key : string) :
  keeps_keys (getitem v key).
Proof.
  destruct v; try apply keeps_keys_raise. simpl.
  destruct (d !! key); [apply keeps_keys_ret | apply keeps_keys_raise].
Qed.

Lemma keeps_keys_dict_get (v : pyval) (key : string) :
  keeps_keys (dict_get v key).
Proof. destruct v; try apply keeps_keys_raise. apply keeps_keys_ret. Qed.

Lemma keeps_keys_send_all (messages : list string) :
  keeps_keys (send_all messages).
Proof.
  induction messages as [|m rest IH]; [apply keeps_keys_ret|].
  simpl. apply keeps_keys_bind; [apply keeps_keys_send | intros _; exact IH].
Qed.

Lemma keeps_keys_get_model_info (command guild_id : string) :
  keeps_keys (get_model_info command guild_id).
Proof.
  unfold get_model_info. apply keeps_keys_bind; [apply keeps_keys_gets|].
  intros stored. destruct (isinstance_str (default default_record stored));
    [|apply keeps_keys_ret].
  apply keeps_keys_bind; [apply keeps_keys_store_entry | intros _].
  apply keeps_keys_bind; [apply keeps_keys_save | intros _].
  apply keeps_keys_bind; [apply keeps_keys_logging | intros _].
  apply keeps_keys_ret.
Qed.

Lemma keeps_keys_askpoe_item (guild_id response : string) (item : pyval) :
  keeps_keys (askpoe_item guild_id response item).
Proof.
  destruct item; try apply keeps_keys_ret. simpl.
  apply keeps_keys_bind.
  - destruct (truthy (default (PStr "") (d !! "response")));
      [|apply keeps_keys_ret].
    destruct (default (PStr "") (d !! "response"));
      first [apply keeps_keys_ret | apply keeps_keys_raise].
  - intros r. apply keeps_keys_bind; [|intros _; apply keeps_keys_ret].
    destruct (truthy (default PNone (d !! "chatId")));
      [|apply keeps_keys_ret].
    apply keeps_keys_bind;
      [apply keeps_keys_store_field | intros _; apply keeps_keys_save].
Qed.

Lemma keeps_keys_askpoe_stream (guild_id : string) (items : list pyval) :
  forall response, keeps_keys (askpoe_stream guild_id response items).
Proof.
  induction items as [|item rest IH]; intros response;
    [apply keeps_keys_ret|].
  simpl. apply keeps_keys_bind;
    [apply keeps_keys_askpoe_item | intros r; apply IH].
Qed.

Lemma keeps_keys_askpoe (py_str : pyval -> string)
    (guild_id display_name prompt : string) (stream : list pyval) :
  keeps_keys (askpoe py_str guild_id display_name prompt stream).
Proof.
  unfold askpoe. apply keeps_keys_bind; [apply keeps_keys_send | intros _].
  apply keeps_keys_try_except.
  - apply keeps_keys_bind; [apply keeps_keys_get_model_info | intros mi].
    apply keeps_keys_bind; [apply keeps_keys_getitem | intros bot_handle].
    apply keeps_keys_bind; [apply keeps_keys_dict_get | intros chat_id].
    apply keeps_keys_bind; [apply keeps_keys_askpoe_stream | intros r].
    unfold askpoe_reply. destruct (truthy (PStr r)); [|apply keeps_keys_send].
    destruct (chunk MESSAGE_LIMIT _ r);
      [apply keeps_keys_send_all | apply keeps_keys_send].
  - intros [];
      (apply keeps_keys_bind;
       [apply keeps_keys_logging | intros _; apply keeps_keys_send]).
Qed.

Lemma keeps_keys_llm_set_store (guild_id model : string) :
  keeps_keys (llm_set_store guild_id model).
Proof.
  unfold llm_set_store. apply keeps_keys_bind; [apply keeps_keys_gets|].
  intros current_info.
  apply keeps_keys_bind; [|intros _; apply keeps_keys_save].
  destruct (isinstance_str (default PNone current_info)).
  - apply keeps_keys_bind;
      [apply keeps_keys_store_entry | intros _; apply keeps_keys_logging].
  - apply keeps_keys_bind;
      [apply keeps_keys_store_field | intros _; apply keeps_keys_store_field].
Qed.

Lemma keeps_keys_llm_set_command (guild_id model : string)
    (bots : result (list string)) :
  keeps_keys (llm_set_command guild_id model bots).
Proof.
  unfold llm_set_command.
  apply keeps_keys_bind; [apply keeps_keys_send | intros _].
  apply keeps_keys_try_except.
  - apply keeps_keys_bind.
    + destruct bots; simpl;
        (apply keeps_keys_bind;
         [apply keeps_keys_logging | intros _; apply keeps_keys_ret]).
    + intros models. destruct (bool_decide (model ∈ models));
        [|apply keeps_keys_send].
      apply keeps_keys_bind;
        [apply keeps_keys_llm_set_store | intros _; apply keeps_keys_send].
  - intros e. apply keeps_keys_bind;
      [apply keeps_keys_logging | intros _; apply keeps_keys_send].
Qed.

Lemma keeps_keys_reset (guild_id : string) : keeps_keys (reset guild_id).
Proof.
  unfold reset. apply keeps_keys_bind; [apply keeps_keys_send | intros _].
  apply keeps_keys_try_except.
  - apply keeps_keys_bind; [apply keeps_keys_gets | intros stored].
    destruct stored as [v|]; [|apply keeps_keys_send].
    apply keeps_keys_bind.
    + destruct (isinstance_str v); [|apply keeps_keys_ret].
      apply keeps_keys_bind;
        [apply keeps_keys_store_entry | intros _; apply keeps_keys_logging].
    + intros _. apply keeps_keys_bind; [apply keeps_keys_store_field|].
      intros _. apply keeps_keys_bind;
        [apply keeps_keys_save | intros _; apply keeps_keys_send].
  - intros e. apply keeps_keys_bind;
      [apply keeps_keys_logging | intros _; apply keeps_keys_send].
Qed.

Lemma keeps_keys_clear (guild_id : string) (chat_break : result unit) :
  keeps_keys (clear guild_id chat_break).
Proof.
  unfold clear. apply keeps_keys_bind; [apply keeps_keys_send | intros _].
  apply keeps_keys_try_except.
  - apply keeps_keys_bind; [apply keeps_keys_gets | intros stored].
    destruct (negb (truthy (default PNone stored))
              || negb (isinstance_dict (default PNone stored)));
      [apply keeps_keys_send|].
    apply keeps_keys_bind; [apply keeps_keys_getitem | intros bot_handle].
    apply keeps_keys_bind; [apply keeps_keys_dict_get | intros chat_id].
    destruct (negb (truthy chat_id)); [apply keeps_keys_send|].
    destruct chat_break; [|apply keeps_keys_raise].
    apply keeps_keys_bind; [apply keeps_keys_store_field | intros _].
    apply keeps_keys_bind;
      [apply keeps_keys_save | intros _; apply keeps_keys_send].
  - intros e. apply keeps_keys_bind;
      [apply keeps_keys_logging | intros _; apply keeps_keys_send].
Qed.

(** Every import that runs to its end leaves an entry for the default
    guild. *)
Lemma module_init_default_entry (GUILD_ID : Z) (d : option file) :
  fst (module_init GUILD_ID (boot d)) = Ok tt ->
  is_Some (llm_choices (snd (module_init GUILD_ID (boot d))) !! pretty GUILD_ID).
Proof.
  intros Hok. destruct d as [[text|e|v]|].
  - rewrite module_init_unparsable. simpl. rewrite lookup_insert_eq. eauto.
  - destruct e; try discriminate Hok.
    unfold module_init, bind, load, boot. simpl.
    rewrite migrate_nothing
      by (intros g v Hg; simpl in Hg; rewrite lookup_empty in Hg;
          discriminate).
    unfold gets, ret, store_entry, modify. simpl.
    rewrite lookup_empty. simpl. rewrite lookup_insert_eq. eauto.
  - destruct v; try discriminate Hok.
    destruct (module_init_object GUILD_ID d) as (_ & Hstore & _).
    rewrite Hstore.
    destruct ((migrated_value <$> d) !! pretty GUILD_ID) eqn:Hg.
    + rewrite Hg. eauto.
    + rewrite lookup_insert_eq. eauto.
  - rewrite module_init_no_file. simpl. rewrite lookup_insert_eq. eauto.
Qed.

(** From start-up on the guild of the commands has an entry. *)
Lemma reachable_default_entry (py_str : pyval -> string) (GUILD_ID : Z)
    (w : world) :
  reachable py_str GUILD_ID w -> is_Some (llm_choices w !! pretty GUILD_ID).
Proof.
  induction 1 as [d Hok | w n p s _ IH | w m bots _ IH | w _ IH
                 | w cb _ IH | w _ IH | w o _ IH | w l msg _ IH].
  - apply module_init_default_entry. exact Hok.
  - apply keeps_keys_askpoe. exact IH.
  - apply keeps_keys_llm_set_command. exact IH.
  - apply keeps_keys_reset. exact IH.
  - apply keeps_keys_clear. exact IH.
  - apply keeps_keys_get_model_info. exact IH.
  - exact IH.
  - exact IH.
Qed.

(** ** The session update in the running bot *)

Lemma askpoe_item_dict_entry (guild_id response : string) (item : pyval)
    (d : gmap string pyval) (w : world) :
  llm_choices w !! guild_id = Some (PDict d) ->
  match askpoe_item guild_id response item w with
  | (Ok _, w') => exists d', llm_choices w' !! guild_id = Some (PDict d')
  | (Raise e, w') => e = TypeError /\ w' = w
  end.
Proof.
  intros Hd. destruct item as [| | | |l|c]; simpl; eauto.
  unfold bind.
  destruct (truthy (default (PStr "") (c !! "response"))).
  - destruct (default (PStr "") (c !! "response")); simpl; auto.
    destruct (truthy (default PNone (c !! "chatId"))); simpl; eauto.
    rewrite (store_field_dict _ _ _ _ d) by exact Hd. simpl.
    rewrite lookup_insert_eq. eauto.
  - simpl. destruct (truthy (default PNone (c !! "chatId"))); simpl; eauto.
    rewrite (store_field_dict _ _ _ _ d) by exact Hd. simpl.
    rewrite lookup_insert_eq. eauto.
Qed.

(** With a dictionary for the guild, the loop of lines 164-175 raises
    nothing but the [TypeError] of line 168. *)
Lemma askpoe_stream_dict_entry (guild_id : string) (items : list pyval) :
  forall (response : string) (d : gmap string pyval) (w : world) (e : exn),
    llm_choices w !! guild_id = Some (PDict d) ->
    fst (askpoe_stream guild_id response items w) = Raise e ->
    e = TypeError.
Proof.
  induction items as [|item rest IH]; intros response d w e Hd Hraise.
  - discriminate Hraise.
  - simpl in Hraise. unfold bind in Hraise.
    pose proof (askpoe_item_dict_entry guild_id response item d w Hd) as Hitem.
    destruct (askpoe_item guild_id response item w) as [[r|e'] w1].
    + destruct Hitem as [d' Hd']. exact (IH r d' w1 e Hd' Hraise).
    + simpl in Hraise. destruct Hitem as [-> _]. congruence.
Qed.




(** ** Setting the model in the running bot *)



